(** * The chat store of vscode-chat ([src/store.ts]): model and properties

    The store owns the in-memory model of channels, users and messages and
    reconciles what the chat providers send.  This file embeds the
    synchronous part of [Store] as functions on an explicit store state:

    - a JavaScript object used as a dictionary of messages is a [gmap]
      (no code below depends on the enumeration order of message keys: the
      keys are only counted, deleted or collected into a [Set]);
    - the [users] object is an association list in key order, because
      [getChannelLabels] takes the first user whose name matches;
    - a property that reads as [undefined] is [None]; the optional
      properties of a channel, which is spread over another channel, keep
      apart being absent and being [undefined];
    - a count is an integer ([Z]); the numeric comparison of two timestamp
      strings is a parameter of the model;
    - a method is a function [Store -> Store * result A]: a [TypeError]
      aborts the method but keeps the mutations made before it;
    - every call issued to a collaborator (persistence, status bar, tree
      views, webview, chat provider) is appended to the [effects] journal of
      the store, the collaborators being bound as they are once
      [initializeToken] has run; the [.then] callback of a provider call is
      a function of its own, named [<method>_then], applied to the
      provider's reply. *)

From Stdlib Require Import ZArith String List.
From stdpp Require Import base strings gmap list pretty.

Local Open Scope string_scope.
Local Open Scope list_scope.
Local Open Scope Z_scope.

(** ** Data model

    [src/interfaces.ts] is not among the sources: the records below carry
    the properties the specification lists in its data model and the store
    reads. *)

Module ChannelType.
(** Modelled from the spec: the [ChannelType] enumeration (channel, group,
    direct message). *)
Inductive t : Set := channel | group | im.

Definition eqb (a b : t) : bool :=
  match a, b with
  | channel, channel | group, group | im, im => true
  | _, _ => false
  end.
End ChannelType.

(** An optional property of an object that is spread over another one: the
    object does not have it, has it with the value [undefined], or has it
    with a value.  Reading it gives [undefined] in the first two cases; the
    spread copies it in the last two. *)
Inductive property (A : Type) : Type :=
| Absent
| Undefined
| Value (a : A).
Arguments Absent {A}.
Arguments Undefined {A}.
Arguments Value {A} a.

Definition read {A} (p : property A) : option A :=
  match p with
  | Value a => Some a
  | Absent | Undefined => None
  end.

Module Channel.
(** Modelled from the spec: the [Channel] interface, with identity [id],
    [name], [type], and the optional [readTimestamp] and provider-reported
    [unreadCount]. *)
Record t : Type := mk {
  id : string;
  name : string;
  type : ChannelType.t;
  readTimestamp : property string;
  unreadCount : property Z
}.

(** [{ ...channel, ...newChannel }]: the properties of [newChannel] win, the
    properties it does not have are kept. *)
Definition spread (channel newChannel : t) : t :=
  {| id := id newChannel;
     name := name newChannel;
     type := type newChannel;
     readTimestamp :=
       match readTimestamp newChannel with
       | Absent => readTimestamp channel
       | carried => carried
       end;
     unreadCount :=
       match unreadCount newChannel with
       | Absent => unreadCount channel
       | carried => carried
       end |}.
End Channel.

Module User.
(** Modelled from the spec: the [User] interface; [isOnline] is unknown
    ([None]) for a provider without presence. *)
Record t : Type := mk {
  id : string;
  name : string;
  isOnline : option bool
}.

(** [{ ...user, isOnline }] *)
Definition with_isOnline (isOnline' : option bool) (user : t) : t :=
  {| id := id user; name := name user; isOnline := isOnline' |}.
End User.

Module MessageReaction.
(** Modelled from the spec: a reaction, with its [name], [count] and the
    [userIds] that contributed. *)
Record t : Type := mk {
  name : string;
  count : Z;
  userIds : list string
}.
End MessageReaction.

Module MessageReply.
(** Modelled from the spec: a thread reply, with [timestamp], content and
    [userId]. *)
Record t : Type := mk {
  timestamp : string;
  userId : string;
  content : string
}.
End MessageReply.

Module Message.
(** Modelled from the spec: a message holds [userId], content, the ordered
    [reactions] and the [replies] by reply timestamp. *)
Record t : Type := mk {
  userId : string;
  content : string;
  reactions : list MessageReaction.t;
  replies : gmap string MessageReply.t
}.

(** [{ ...message, reactions }] *)
Definition with_reactions (reactions' : list MessageReaction.t) (message : t) : t :=
  {| userId := userId message; content := content message;
     reactions := reactions'; replies := replies message |}.

(** [{ ...message, replies }] *)
Definition with_replies (replies' : gmap string MessageReply.t) (message : t) : t :=
  {| userId := userId message; content := content message;
     reactions := reactions message; replies := replies' |}.
End Message.

Module CurrentUser.
(** Modelled from the spec: the authenticated identity, its [currentTeamId]
    and the [provider] it signed in with. *)
Record t : Type := mk {
  id : option string;
  currentTeamId : option string;
  provider : option string
}.

(** [{ ...userInfo, currentTeamId }] *)
Definition with_currentTeamId (currentTeamId' : option string) (userInfo : t) : t :=
  {| id := id userInfo; currentTeamId := currentTeamId';
     provider := provider userInfo |}.
End CurrentUser.

Module Team.
(** Modelled from the spec: a team (guild), of which the store reads [id]. *)
Record t : Type := mk { id : string; name : string }.
End Team.

Module UserPreferences.
(** Modelled from the spec: the preferences, with the muted channel ids. *)
Record t : Type := mk { mutedChannels : option (list string) }.
End UserPreferences.

(** [ChannelMessages]: timestamp to message; a key bound to [None] is a key
    whose value is [undefined], the marker of a deleted message. *)
Abbreviation ChannelMessages := (gmap string (option Message.t)).
Abbreviation Messages := (gmap string (gmap string (option Message.t))).
(** [Users]: the entries of the object, in the order of [Object.keys]. *)
Abbreviation Users := (list (string * User.t)).

Module ChannelLabel.
Record t : Type := mk {
  channel : Channel.t;
  unread : Z;
  label : string;
  isOnline : option bool
}.
End ChannelLabel.

Module UIMessage.
Record t : Type := mk {
  messages : gmap string (option Message.t);
  users : list (string * User.t);
  currentUser : option CurrentUser.t;
  channel : option Channel.t;
  statusText : string
}.
End UIMessage.

(** ** Collaborators *)

Module stateKeys.
Definition LAST_CHANNEL_ID : string := "lastChannelId".
Definition CHANNELS : string := "channels".
Definition USER_INFO : string := "userInfo".
Definition USERS : string := "users".
End stateKeys.

Definition STORAGE_SIZE_LIMIT : nat := 100.

(** What [globalState.update] is given. *)
Inductive Stored : Type :=
| StoredChannelId (channelId : option string)
| StoredChannels (channels : list Channel.t)
| StoredUserInfo (userInfo : option CurrentUser.t)
| StoredUsers (users : Users).

Inductive TreeView : Set := UnreadsTree | ChannelsTree | GroupsTree | IMsTree.

(** Calls of the [IChatProvider] interface made by the modelled methods. *)
Inductive Request : Type :=
| FetchUsers
| FetchChannels (users : Users)
| FetchChannelInfo (channel : Channel.t)
| FetchUserInfo (userIds : gset string).

Inductive Effect : Type :=
| GlobalStateUpdate (key : string) (value : Stored)
| StatusUpdateCount (totalUnreads : Z)
| TreeUpdate (tree : TreeView) (channelLabels : list ChannelLabel.t)
| UsersTreeUpdateData (currentUser : option CurrentUser.t) (users : Users)
    (imChannels : list (string * Channel.t))
| SendToWebview (uiMessage : UIMessage.t)
| ProviderCall (request : Request).

(** ** The store *)

Record Store : Type := mkStore {
  lastChannelId : option string;
  channels : option (list Channel.t);
  channelsFetchedAt : option Z;
  currentUserInfo : option CurrentUser.t;
  currentUserPrefs : UserPreferences.t;
  users : Users;
  usersFetchedAt : option Z;
  messages : Messages;
  effects : list Effect
}.

Definition set_channels (v : option (list Channel.t)) (st : Store) : Store :=
  mkStore (lastChannelId st) v (channelsFetchedAt st) (currentUserInfo st)
    (currentUserPrefs st) (users st) (usersFetchedAt st) (messages st) (effects st).

Definition set_channelsFetchedAt (v : option Z) (st : Store) : Store :=
  mkStore (lastChannelId st) (channels st) v (currentUserInfo st)
    (currentUserPrefs st) (users st) (usersFetchedAt st) (messages st) (effects st).

Definition set_currentUserInfo (v : option CurrentUser.t) (st : Store) : Store :=
  mkStore (lastChannelId st) (channels st) (channelsFetchedAt st) v
    (currentUserPrefs st) (users st) (usersFetchedAt st) (messages st) (effects st).

Definition set_users (v : Users) (st : Store) : Store :=
  mkStore (lastChannelId st) (channels st) (channelsFetchedAt st) (currentUserInfo st)
    (currentUserPrefs st) v (usersFetchedAt st) (messages st) (effects st).

Definition set_usersFetchedAt (v : option Z) (st : Store) : Store :=
  mkStore (lastChannelId st) (channels st) (channelsFetchedAt st) (currentUserInfo st)
    (currentUserPrefs st) (users st) v (messages st) (effects st).

Definition set_messages (v : Messages) (st : Store) : Store :=
  mkStore (lastChannelId st) (channels st) (channelsFetchedAt st) (currentUserInfo st)
    (currentUserPrefs st) (users st) (usersFetchedAt st) v (effects st).

Definition set_effects (v : list Effect) (st : Store) : Store :=
  mkStore (lastChannelId st) (channels st) (channelsFetchedAt st) (currentUserInfo st)
    (currentUserPrefs st) (users st) (usersFetchedAt st) (messages st) v.

(** ** Results and the method monad *)

(** The outcome of an expression: a value, or a thrown [TypeError]
    (a property read on [undefined]). *)
Inductive result (A : Type) : Type :=
| Ok (a : A)
| Throw.
Arguments Ok {A} a.
Arguments Throw {A}.

Definition M (A : Type) : Type := Store -> Store * result A.

Definition ret {A} (a : A) : M A := fun st => (st, Ok a).

Definition bind {A B} (m : M A) (k : A -> M B) : M B :=
  fun st =>
    match m st with
    | (st', Ok a) => k a st'
    | (st', Throw) => (st', Throw)
    end.

(** A read-only computation on the current state. *)
Definition query {A} (q : Store -> result A) : M A := fun st => (st, q st).

Definition modify (f : Store -> Store) : M unit := fun st => (f st, Ok tt).

Definition emit (e : Effect) : M unit :=
  modify (fun st => set_effects (effects st ++ [e]) st).

Declare Scope method_scope.
Delimit Scope method_scope with method.
Notation "'let!' x ':=' m 'in' k" := (bind m (fun x => k))
  (at level 10, x pattern, m at level 100, k at level 200) : method_scope.
Notation "m ';;' k" := (bind m (fun _ => k))
  (at level 100, k at level 200, right associativity) : method_scope.

Definition exec {A} (m : M A) (st : Store) : Store := fst (m st).
Definition outcome {A} (m : M A) (st : Store) : result A := snd (m st).

(** [Array.prototype.map] and [filter] with a callback that may throw. *)
Fixpoint mapR {A B} (f : A -> result B) (l : list A) : result (list B) :=
  match l with
  | [] => Ok []
  | x :: l' =>
    match f x with
    | Throw => Throw
    | Ok y =>
      match mapR f l' with
      | Throw => Throw
      | Ok ys => Ok (y :: ys)
      end
    end
  end.

Fixpoint filterR {A} (f : A -> result bool) (l : list A) : result (list A) :=
  match l with
  | [] => Ok []
  | x :: l' =>
    match f x with
    | Throw => Throw
    | Ok b =>
      match filterR f l' with
      | Throw => Throw
      | Ok ys => Ok (if b then x :: ys else ys)
      end
    end
  end.

(** ** JavaScript coercions *)

(** [!!s] for a string. *)
Definition truthy (s : string) : bool := negb (String.eqb s "").

(** [!!o] for a property holding a string or nothing. *)
Definition truthy_opt (o : option string) : bool :=
  match o with
  | Some s => truthy s
  | None => false
  end.

(** The property key an optional string is coerced to by [in] and [[]]. *)
Definition property_key (o : option string) : string :=
  match o with
  | Some s => s
  | None => "undefined"
  end.

(** Lookup in the [users] object. *)
Definition users_get (users : Users) (userId : string) : option User.t :=
  snd <$> List.find (fun entry => String.eqb (fst entry) userId) users.

Definition object_keys {A} (o : list (string * A)) : list string := map fst o.

(** A promise handed to the caller: already resolved with a value, or the
    promise of the provider's reply to [request] chained with the [.then]
    callback of the method that issued the request. *)
Inductive Promise (A : Type) : Type :=
| Resolved (a : A)
| Chained (request : Request).
Arguments Resolved {A} a.
Arguments Chained {A} request.

(** ** Methods of [Store] *)

Section Methods.

(** [num_gt a b] is the JavaScript test [+a > +b] on two strings: both are
    converted to numbers; the test is false when either is [NaN]. *)
Variable num_gt : string -> string -> bool.

Local Open Scope method_scope.

Definition isAuthenticated (st : Store) : bool :=
  match currentUserInfo st with
  | Some currentUser => truthy_opt (CurrentUser.id currentUser)
  | None => false
  end.

(** [this.channels], on which [find] or [map] is about to be called. *)
Definition the_channels (st : Store) : result (list Channel.t) :=
  match channels st with
  | Some chs => Ok chs
  | None => Throw
  end.

Definition getChannel (channelId : option string) (st : Store)
  : result (option Channel.t) :=
  match the_channels st with
  | Throw => Throw
  | Ok chs =>
    Ok (List.find
          (fun channel =>
             match channelId with
             | Some i => String.eqb (Channel.id channel) i
             | None => false
             end) chs)
  end.

Definition isChannelMuted (channelId : string) (st : Store) : bool :=
  match UserPreferences.mutedChannels (currentUserPrefs st) with
  | Some mutedChannels => bool_decide (channelId ∈ mutedChannels)
  | None => false
  end.

(** The callback of [filter] in [getUnreadCount], at key [ts] bound to
    [entry]. *)
Definition isUnreadMessage (st : Store) (readTimestamp : option string)
  (ts : string) (entry : option Message.t) : result bool :=
  match entry with
  | None => Throw
  | Some message =>
    match currentUserInfo st with
    | None => Throw
    | Some currentUser =>
      let isDifferentUser :=
        negb (bool_decide (Some (Message.userId message) = CurrentUser.id currentUser)) in
      let isNewTimestamp :=
        match readTimestamp with
        | Some rts => if truthy rts then num_gt ts rts else false
        | None => false
        end in
      Ok (isDifferentUser && isNewTimestamp)
    end
  end.

Definition getUnreadCount (channel : Channel.t) (st : Store) : result Z :=
  let id := Channel.id channel in
  let readTimestamp := read (Channel.readTimestamp channel) in
  let unreadCount := read (Channel.unreadCount channel) in
  if isChannelMuted id st then Ok 0
  else
    let messages := default ∅ (messages st !! id) in
    match filterR (fun kv => isUnreadMessage st readTimestamp (fst kv) (snd kv))
                  (map_to_list messages) with
    | Throw => Throw
    | Ok unreadMessages =>
      Ok (match unreadCount with
          | Some n => if Z.eqb n 0 then Z.of_nat (length unreadMessages) else n
          | None => Z.of_nat (length unreadMessages)
          end)
    end.

(** The user a direct-message channel called [name] belongs to: the first
    key of [users] whose user is called [name], with or without [@]. *)
Definition relatedUserId (name : string) (st : Store) : option string :=
  List.find
    (fun value =>
       match users_get (users st) value with
       | Some user =>
         String.eqb ("@" +:+ User.name user) name || String.eqb (User.name user) name
       | None => false
       end)
    (object_keys (users st)).

Definition channelLabel (st : Store) (channel : Channel.t) : result ChannelLabel.t :=
  match getUnreadCount channel st with
  | Throw => Throw
  | Ok unread =>
    let name := Channel.name channel in
    let isMuted := isChannelMuted (Channel.id channel) st in
    let isOnline :=
      if ChannelType.eqb (Channel.type channel) ChannelType.im then
        match relatedUserId name st with
        | Some userId =>
          if truthy userId then
            match users_get (users st) userId with
            | Some relatedUser => Ok (User.isOnline relatedUser)
            | None => Throw
            end
          else Ok (Some false)
        | None => Ok (Some false)
        end
      else Ok (Some false) in
    let label :=
      if 0 <? unread then name +:+ " (" +:+ pretty unread +:+ " new)"
      else if isMuted then name +:+ " (muted)"
      else name in
    match isOnline with
    | Throw => Throw
    | Ok online => Ok (ChannelLabel.mk channel unread label online)
    end
  end.

Definition getChannelLabels (st : Store) : result (list ChannelLabel.t) :=
  match the_channels st with
  | Throw => Throw
  | Ok chs => mapR (channelLabel st) chs
  end.

Definition getIMChannel (user : User.t) (st : Store) : result (option Channel.t) :=
  match the_channels st with
  | Throw => Throw
  | Ok chs =>
    Ok (List.find
          (fun channel =>
             String.eqb (Channel.name channel) ("@" +:+ User.name user)
             || String.eqb (Channel.name channel) (User.name user)) chs)
  end.

Definition updateWebviewUI : M unit :=
  fun st =>
    match getChannel (lastChannelId st) st with
    | Throw => (st, Throw)
    | Ok channel =>
      let messages := default ∅ (messages st !! property_key (lastChannelId st)) in
      emit (SendToWebview
              (UIMessage.mk messages (users st) (currentUserInfo st) channel "")) st
    end.

(** The loop of [updateTreeViews] that fills [imChannels], over the entries
    of [users] in key order. *)
Fixpoint collectIMChannels (st : Store) (entries : Users)
  : result (list (string * Channel.t)) :=
  match entries with
  | [] => Ok []
  | (userId, user) :: entries' =>
    match getIMChannel user st with
    | Throw => Throw
    | Ok im =>
      match collectIMChannels st entries' with
      | Throw => Throw
      | Ok imChannels =>
        Ok (match im with
            | Some ch => (userId, ch) :: imChannels
            | None => imChannels
            end)
      end
    end
  end.

Definition updateTreeViews : M unit :=
  fun st =>
    if isAuthenticated st then
      (let! channelLabels := query getChannelLabels in
       emit (TreeUpdate UnreadsTree channelLabels);;
       emit (TreeUpdate ChannelsTree channelLabels);;
       emit (TreeUpdate GroupsTree channelLabels);;
       emit (TreeUpdate IMsTree channelLabels);;
       let! imChannels := query (fun st' => collectIMChannels st' (users st')) in
       fun st' =>
         emit (UsersTreeUpdateData (currentUserInfo st') (users st') imChannels) st') st
    else (st, Ok tt).

Definition updateUnreadCount : M unit :=
  fun st =>
    match the_channels st with
    | Throw => (st, Throw)
    | Ok chs =>
      match mapR (fun channel => getUnreadCount channel st) chs with
      | Throw => (st, Throw)
      | Ok unreads =>
        let totalUnreads := fold_left Z.add unreads 0 in
        emit (StatusUpdateCount totalUnreads) st
      end
    end.

Definition updateAllUI : M unit :=
  updateUnreadCount;; updateTreeViews;; updateWebviewUI.

(** *** Replacing the collections *)

Definition updateUsers (newUsers : Users) : M unit :=
  modify (set_users newUsers);;
  fun st =>
    if bool_decide (length (object_keys (users st)) <= STORAGE_SIZE_LIMIT)%nat
    then emit (GlobalStateUpdate stateKeys.USERS (StoredUsers (users st))) st
    else (st, Ok tt).

Definition updateUsersFetchedAt (now : Z) : M unit :=
  modify (set_usersFetchedAt (Some now)).

Definition updateChannelsFetchedAt (now : Z) : M unit :=
  modify (set_channelsFetchedAt (Some now)).

Definition updateChannels (channels : list Channel.t) : M unit :=
  modify (set_channels (Some channels));;
  if bool_decide (length channels <= STORAGE_SIZE_LIMIT)%nat
  then emit (GlobalStateUpdate stateKeys.CHANNELS (StoredChannels channels))
  else ret tt.

(** The list [updateChannel] builds from [this.channels]: every channel
    with the id of [newChannel] is merged with it, and [newChannel] is
    appended when none was found. *)
Definition updatedChannels (newChannel : Channel.t) (chs : list Channel.t)
  : list Channel.t :=
  let found :=
    existsb (fun channel => String.eqb (Channel.id channel) (Channel.id newChannel)) chs in
  let updatedChannels :=
    map (fun channel =>
           if String.eqb (Channel.id channel) (Channel.id newChannel)
           then Channel.spread channel newChannel
           else channel) chs in
  if found then updatedChannels else updatedChannels ++ [newChannel].

Definition updateChannel (newChannel : Channel.t) : M unit :=
  let! chs := query the_channels in
  updateChannels (updatedChannels newChannel chs);;
  updateTreeViews.

(** *** Fetching through the provider *)

Definition fetchUsers : M (Promise Users) :=
  emit (ProviderCall FetchUsers);;
  ret (Chained FetchUsers).

Definition fetchUsers_then (now : Z) (fetched : Users) : M Users :=
  fun st =>
    let usersWithPresence :=
      map (fun entry : string * User.t =>
             let userId := fst entry in
             let newUser := snd entry in
             let calculatedIsOnline :=
               match User.isOnline newUser with
               | Some isOnline => Some isOnline
               | None =>
                 match users_get (users st) userId with
                 | Some existingUser => User.isOnline existingUser
                 | None => Some false
                 end
               end in
             (userId, User.with_isOnline calculatedIsOnline newUser)) fetched in
    (updateUsers usersWithPresence;;
     updateUsersFetchedAt now;;
     ret fetched) st.

Definition fetchChannels : M (Promise (list Channel.t)) :=
  fun st =>
    (emit (ProviderCall (FetchChannels (users st)));;
     ret (Chained (FetchChannels (users st)))) st.

Definition fetchChannels_then (now : Z) (channels : list Channel.t)
  : M (list Channel.t) :=
  updateChannels channels;;
  updateChannelsFetchedAt now;;
  updateTreeViews;;
  modify (fun st =>
            set_effects
              (effects st
               ++ map (fun channel => ProviderCall (FetchChannelInfo channel)) channels)
              st);;
  ret channels.

Definition FETCH_THRESHOLD : Z := 15 * 60 * 1000.

Definition shouldFetchNew (now : Z) (lastFetchedAt : option Z) : bool :=
  match lastFetchedAt with
  | None => true
  | Some fetchedAt => FETCH_THRESHOLD <? now - fetchedAt
  end.

Definition isNotEmpty {A} (obj : list (string * A)) : bool :=
  negb (Nat.eqb (length (object_keys obj)) 0).

Definition getUsersPromise (now : Z) : M (Promise Users) :=
  fun st =>
    if isNotEmpty (users st) then
      ((if shouldFetchNew now (usersFetchedAt st)
        then (fetchUsers;; ret tt)
        else ret tt);;
       fun st' => ret (Resolved (users st')) st') st
    else fetchUsers st.

Definition getChannelsPromise (now : Z) : M (Promise (list Channel.t)) :=
  fun st =>
    match channels st with
    | Some chs =>
      (* [fetchChannels()] only issues the provider call: [this.channels]
         is still [chs] when the promise is resolved with it. *)
      ((if shouldFetchNew now (channelsFetchedAt st)
        then (fetchChannels;; ret tt)
        else ret tt);;
       ret (Resolved chs)) st
    | None => fetchChannels st
    end.

(** *** The current user *)

Definition updateCurrentUser (userInfo : option CurrentUser.t) : M unit :=
  (fun st =>
     match userInfo with
     | None => modify (set_currentUserInfo None) st
     | Some info =>
       let currentTeamId :=
         match currentUserInfo st with
         | Some currentUser => CurrentUser.currentTeamId currentUser
         | None => None
         end in
       let currentTeamId :=
         if truthy_opt (CurrentUser.currentTeamId info)
         then CurrentUser.currentTeamId info
         else currentTeamId in
       modify (set_currentUserInfo
                 (Some (CurrentUser.with_currentTeamId currentTeamId info))) st
     end);;
  fun st =>
    emit (GlobalStateUpdate stateKeys.USER_INFO (StoredUserInfo (currentUserInfo st))) st.

Definition updateCurrentWorkspace (team : Team.t) : M unit :=
  fun st =>
    let newCurrentUser :=
      match currentUserInfo st with
      | Some currentUser =>
        CurrentUser.with_currentTeamId (Some (Team.id team)) currentUser
      | None => CurrentUser.mk None (Some (Team.id team)) None
      end in
    updateCurrentUser (Some newCurrentUser) st.

(** *** Messages *)

(** [{ ...old, ...newMessages }] followed by the loop that deletes every key
    whose value is [undefined]. *)
Definition mergeMessages (old newMessages : ChannelMessages) : ChannelMessages :=
  filter (fun entry : string * option Message.t => is_Some (snd entry))
         (newMessages ∪ old).

(** The authors of the messages of a channel, as a [Set]. *)
Definition messageUserIds (channelMessages : ChannelMessages) : gset string :=
  list_to_set
    (omap (fun entry : string * option Message.t => Message.userId <$> snd entry)
          (map_to_list channelMessages)).

(** Modelled from the spec: [isSuperset] of [src/utils.ts], not among the
    sources; [updateMessages] asks whether any referenced id is missing
    from the user cache. *)
Definition isSuperset (set subset : gset string) : bool :=
  bool_decide (subset ⊆ set).

(** Modelled from the spec: [difference] of [src/utils.ts], not among the
    sources; it gives exactly the missing subset, a set difference. *)
Definition difference (setA setB : gset string) : gset string := setA ∖ setB.

(** The synchronous part of [fillUpUsers]: the provider is asked for the
    user of each id of [missingIds], all at once. *)
Definition fillUpUsers (missingIds : gset string) : M unit :=
  emit (ProviderCall (FetchUserInfo missingIds)).

Definition updateMessages (channelId : string) (newMessages : ChannelMessages)
  : M unit :=
  modify (fun st =>
            let channelMessages :=
              mergeMessages (default ∅ (messages st !! channelId)) newMessages in
            set_messages (<[channelId := channelMessages]> (messages st)) st);;
  (fun st =>
     let userIds := messageUserIds (default ∅ (messages st !! channelId)) in
     let allIds : gset string := list_to_set (object_keys (users st)) in
     if isSuperset allIds userIds then (st, Ok tt)
     else fillUpUsers (difference userIds allIds) st);;
  updateAllUI.

(** [reactions.find(r => r.name === reactionName)] *)
Definition existingReaction (reactionName : string)
  (reactions : list MessageReaction.t) : option MessageReaction.t :=
  List.find (fun r => String.eqb (MessageReaction.name r) reactionName) reactions.

(** The reactions of the message after [addReaction]. *)
Definition addedReaction (userId reactionName : string)
  (reactions : list MessageReaction.t) : list MessageReaction.t :=
  match existingReaction reactionName reactions with
  | Some existing =>
    map (fun r =>
           if String.eqb (MessageReaction.name r) reactionName
           then MessageReaction.mk (MessageReaction.name existing)
                  (MessageReaction.count existing + 1)
                  (MessageReaction.userIds existing ++ [userId])
           else r) reactions
  | None => reactions ++ [MessageReaction.mk reactionName 1 [userId]]
  end.

Definition addReaction (channelId msgTimestamp userId reactionName : string)
  : M unit :=
  fun st =>
    match messages st !! channelId with
    | None => (st, Ok tt)
    | Some channelMessages =>
      match channelMessages !! msgTimestamp with
      | None => (st, Ok tt)
      | Some None => (st, Throw)
      | Some (Some message) =>
        let reactions := addedReaction userId reactionName (Message.reactions message) in
        let newMessage := Message.with_reactions reactions message in
        updateMessages channelId {[ msgTimestamp := Some newMessage ]} st
      end
    end.

(** The reactions of the message after [removeReaction]. *)
Definition removedReaction (userId reactionName : string)
  (reactions : list MessageReaction.t) : list MessageReaction.t :=
  List.filter (fun r => 0 <? MessageReaction.count r)
    (map (fun r =>
            if String.eqb (MessageReaction.name r) reactionName
            then MessageReaction.mk (MessageReaction.name r)
                   (MessageReaction.count r - 1)
                   (List.filter (fun u => negb (String.eqb u userId))
                                (MessageReaction.userIds r))
            else r) reactions).

Definition removeReaction (channelId msgTimestamp userId reactionName : string)
  : M unit :=
  fun st =>
    match messages st !! channelId with
    | None => (st, Ok tt)
    | Some channelMessages =>
      match channelMessages !! msgTimestamp with
      | None => (st, Ok tt)
      | Some None => (st, Throw)
      | Some (Some message) =>
        let reactions := removedReaction userId reactionName (Message.reactions message) in
        let newMessage := Message.with_reactions reactions message in
        updateMessages channelId {[ msgTimestamp := Some newMessage ]} st
      end
    end.

Definition updateMessageReply (parentTimestamp channelId : string)
  (reply : MessageReply.t) : M unit :=
  fun st =>
    let messages := default ∅ (messages st !! channelId) in
    let message := default None (messages !! parentTimestamp) in
    match message with
    | Some message =>
      let replyTs := MessageReply.timestamp reply in
      let replies := <[replyTs := reply]> (Message.replies message) in
      updateMessages channelId
        {[ parentTimestamp := Some (Message.with_replies replies message) ]} st
    | None => (st, Ok tt)
    end.

End Methods.

(** ** An instance of the numeric comparison

    [decimal_gt] agrees with the JavaScript test [+a > +b] on strings of
    decimal digits that denote integers below 2^53 (where the conversion to
    a number is exact); the empty string converts to 0.  It is used for the
    concrete scenarios only; every general statement below holds for any
    comparison. *)

Definition digit_value (c : Ascii.ascii) : option N :=
  let n := Ascii.N_of_ascii c in
  if (48 <=? n)%N && (n <=? 57)%N then Some (n - 48)%N else None.

Fixpoint decimal_digits (acc : N) (s : string) : option N :=
  match s with
  | EmptyString => Some acc
  | String c s' =>
    match digit_value c with
    | Some d => decimal_digits (10 * acc + d)%N s'
    | None => None
    end
  end.

Definition decimal_value (s : string) : option N := decimal_digits 0%N s.

Definition decimal_gt (a b : string) : bool :=
  match decimal_value a, decimal_value b with
  | Some x, Some y => (y <? x)%N
  | _, _ => false
  end.

(** ** Reference definitions, following the specification *)

Section Reference.

Variable num_gt : string -> string -> bool.

(** The id of the current user, when there is one. *)
Definition currentUserId (st : Store) : option string :=
  currentUserInfo st ≫= CurrentUser.id.

(** A stored entry counts as unread after [readTimestamp] when it is a
    message of another author with a strictly greater timestamp. *)
Definition unreadAfter (st : Store) (readTimestamp : string)
  (entry : string * option Message.t) : bool :=
  match snd entry with
  | Some message =>
    negb (bool_decide (Some (Message.userId message) = currentUserId st))
    && num_gt (fst entry) readTimestamp
  | None => false
  end.

(** What the [filter] callback of [getUnreadCount] computes when nothing
    throws. *)
Definition countsAsUnread (st : Store) (readTimestamp : option string)
  (entry : string * option Message.t) : bool :=
  match readTimestamp with
  | Some rts => if truthy rts then unreadAfter st rts entry else false
  | None => false
  end.

Definition countUnreadAfter (st : Store) (channelId readTimestamp : string) : Z :=
  Z.of_nat
    (size (filter (fun entry => unreadAfter st readTimestamp entry = true)
                  (default ∅ (messages st !! channelId)))).

Definition inMutedSet (channelId : string) (st : Store) : Prop :=
  match UserPreferences.mutedChannels (currentUserPrefs st) with
  | Some mutedChannels => channelId ∈ mutedChannels
  | None => False
  end.

Global Instance inMutedSet_dec channelId st : Decision (inMutedSet channelId st).
Proof. unfold inMutedSet. destruct (UserPreferences.mutedChannels _); apply _. Defined.

(** [unreadCount(channel)] as section 4.4 of the specification words it:
    0 when muted; else the provider-reported count, verbatim; else the
    number of messages of other authors after [readTimestamp], none when
    there is no [readTimestamp]. *)
Definition unreadCount_spec (channel : Channel.t) (st : Store) : Z :=
  if decide (inMutedSet (Channel.id channel) st) then 0
  else
    match Channel.unreadCount channel with
    | Value reported => reported
    | Absent | Undefined =>
      match Channel.readTimestamp channel with
      | Value readTimestamp => countUnreadAfter st (Channel.id channel) readTimestamp
      | Absent | Undefined => 0
      end
    end.

(** The same, as the code has it: a reported count of 0 and an empty
    [readTimestamp] are treated as missing. *)
Definition unreadCount_amended (channel : Channel.t) (st : Store) : Z :=
  if decide (inMutedSet (Channel.id channel) st) then 0
  else
    let counted :=
      match Channel.readTimestamp channel with
      | Value readTimestamp =>
        if decide (readTimestamp = "") then 0
        else countUnreadAfter st (Channel.id channel) readTimestamp
      | Absent | Undefined => 0
      end in
    match Channel.unreadCount channel with
    | Value reported => if decide (reported = 0) then counted else reported
    | Absent | Undefined => counted
    end.

End Reference.

(** The store is well formed for a channel when no key of its message
    mapping is bound to [undefined]. *)
Definition entriesDefined (channelId : string) (st : Store) : Prop :=
  map_Forall (fun (_ : string) (entry : option Message.t) => is_Some entry)
             (default ∅ (messages st !! channelId)).

Global Instance entriesDefined_dec channelId st : Decision (entriesDefined channelId st).
Proof. unfold entriesDefined. apply _. Defined.

(** ** Concrete stores of the scenarios *)

Definition emptyStore : Store :=
  mkStore None (Some []) None None (UserPreferences.mk None) [] None ∅ [].

Definition userU1 : CurrentUser.t := CurrentUser.mk (Some "U1") None None.

Definition general : Channel.t :=
  Channel.mk "C1" "general" ChannelType.channel Absent Absent.

Definition messageOf (userId : string) (reactions : list MessageReaction.t) : Message.t :=
  Message.mk userId "" reactions ∅.

(** Channel [C1] holds one message, at timestamp 100, written by [U2]; the
    current user is [U1]. *)
Definition scenarioStore : Store :=
  set_messages {[ "C1" := {[ "100" := Some (messageOf "U2" []) ]} ]}
    (set_currentUserInfo (Some userU1) (set_channels (Some [general]) emptyStore)).


(** [general] once read up to timestamp 101, and read up to 99 with a
    provider-reported count of 0. *)
Definition generalRead101 : Channel.t :=
  Channel.mk "C1" "general" ChannelType.channel (Value "101") Absent.

Definition generalRead99Reported0 : Channel.t :=
  Channel.mk "C1" "general" ChannelType.channel (Value "99") (Value 0).


(** A method that only reports to collaborators: whatever it does to the
    store is an extension of the journal. *)
Definition onlyEmits {A} (m : M A) : Prop :=
  ∀ st, ∃ es, fst (m st) = set_effects (effects st ++ es) st.

(** The store after a series of [updateCurrentUser] calls, each with a user
    record. *)
Fixpoint subsequentUpdates (infos : list CurrentUser.t) (st : Store) : Store :=
  match infos with
  | [] => st
  | info :: infos' =>
    subsequentUpdates infos' (exec (updateCurrentUser (Some info)) st)
  end.

(** The team id in force after such a series: the last one a record
    supplied, or the one recorded before. *)
Definition latestTeamId (recorded : option string) (infos : list CurrentUser.t)
  : option string :=
  fold_left
    (fun teamId info =>
       if truthy_opt (CurrentUser.currentTeamId info)
       then CurrentUser.currentTeamId info
       else teamId)
    infos recorded.

(** The entry stored for a timestamp of a channel: [None] when the channel
    or the timestamp is unknown to the message store. *)
Definition storedMessage (channelId ts : string) (st : Store)
  : option (option Message.t) :=
  messages st !! channelId ≫= fun channelMessages => channelMessages !! ts.

Definition storedReactions (channelId ts : string) (st : Store)
  : option (list MessageReaction.t) :=
  match storedMessage channelId ts st with
  | Some (Some message) => Some (Message.reactions message)
  | _ => None
  end.

Global Instance MessageReaction_eq_dec : EqDecision MessageReaction.t.
Proof. solve_decision. Defined.

(** The reaction lists on which adding then removing a reaction of
    [userId] named [reactionName] is a round trip: counts are positive, and
    a reaction with that name is the one [addReaction] finds and does not
    list the user yet. *)
Definition roundTripReady (userId reactionName : string)
  (reactions : list MessageReaction.t) : Prop :=
  Forall (fun r => 0 < MessageReaction.count r) reactions
  ∧ Forall (fun r => MessageReaction.name r = reactionName →
                     (userId ∉ MessageReaction.userIds r)
                     ∧ existingReaction reactionName reactions = Some r)
           reactions.


Global Instance roundTripReady_dec userId reactionName reactions :
  Decision (roundTripReady userId reactionName reactions).
Proof. unfold roundTripReady. apply _. Defined.

(** The message of the scenario already carries a reaction of [U1]. *)
Definition thumbsUp : MessageReaction.t := MessageReaction.mk "+1" 1 ["U1"].

Definition reactedStore : Store :=
  set_messages {[ "C1" := {[ "100" := Some (messageOf "U2" [thumbsUp]) ]} ]}
    scenarioStore.

(** A user signed in to team [T1], and a later record without team. *)
Definition teamStore : Store :=
  set_currentUserInfo (Some (CurrentUser.mk (Some "U1") (Some "T1") None)) emptyStore.

Definition partialUser : CurrentUser.t :=
  CurrentUser.mk (Some "U1") None (Some "discord").

(** A collection of 150 users. *)
Definition users150 : Users :=
  map (fun n : nat =>
         let userId := "U" +:+ pretty n in
         (userId, User.mk userId "member" None))
      (seq 0 150).

(** ** Further methods of [Store] *)

Definition set_lastChannelId (v : option string) (st : Store) : Store :=
  mkStore v (channels st) (channelsFetchedAt st) (currentUserInfo st)
    (currentUserPrefs st) (users st) (usersFetchedAt st) (messages st) (effects st).



Section FurtherMethods.

Variable num_gt : string -> string -> bool.

Local Open Scope method_scope.


Definition updateLastChannelId (channelId : option string) : M unit :=
  modify (set_lastChannelId channelId);;
  fun st =>
    emit (GlobalStateUpdate stateKeys.LAST_CHANNEL_ID
            (StoredChannelId (lastChannelId st))) st.

(** The callback of [createIMChannel], applied to the channel the provider
    created. *)
Definition createIMChannel_then (channel : Channel.t) : M Channel.t :=
  updateChannel num_gt channel;;
  ret channel.



(** The callback of [fetchThreadReplies]: [currentChannelId] is
    [lastChannelId] as it was when the replies were requested, [message] the
    message the provider returned for [parentTimestamp]. *)
Definition fetchThreadReplies_then (currentChannelId : option string)
  (parentTimestamp : string) (message : option Message.t) : M unit :=
  updateMessages num_gt (property_key currentChannelId)
    {[ parentTimestamp := message ]}.

End FurtherMethods.

(** The fields [clearOldWorkspace] resets besides the model of channels,
    users and messages: the [token], and the chat provider, which when bound
    counts the [destroy] calls it received. *)
Record Workspace : Type := mkWorkspace {
  store : Store;
  token : option string;
  chatProvider : option nat
}.

Definition clearOldWorkspace (w : Workspace) : Workspace * result unit :=
  let cleared :=
    (updateLastChannelId None;;
     updateChannels [];;
     updateUsers [];;
     modify (set_usersFetchedAt None);;
     modify (set_channelsFetchedAt None);;
     modify (set_messages ∅))%method (store w) in
  match cleared with
  | (st, Ok _) =>
    (mkWorkspace st None
       (match chatProvider w with
        | Some destroyed => Some (S destroyed)
        | None => None
        end), Ok tt)
  | (st, Throw) => (mkWorkspace st (token w) (chatProvider w), Throw)
  end.

Definition clearAll (w : Workspace) : Workspace * result unit :=
  match updateCurrentUser None (store w) with
  | (st, Ok _) => clearOldWorkspace (mkWorkspace st (token w) (chatProvider w))
  | (st, Throw) => (mkWorkspace st (token w) (chatProvider w), Throw)
  end.

(** The stored messages are well formed when no key of any channel is bound
    to [undefined]. *)
Definition messagesDefined (st : Store) : Prop :=
  map_Forall (fun (_ : string) (channelMessages : gmap string (option Message.t)) =>
                map_Forall (fun (_ : string) (entry : option Message.t) => is_Some entry)
                           channelMessages)
             (messages st).

Global Instance messagesDefined_dec st : Decision (messagesDefined st).
Proof. unfold messagesDefined. apply _. Defined.



(** Every reaction counts the users it lists. *)
Definition countsUsers (reactions : list MessageReaction.t) : Prop :=
  Forall (fun r => MessageReaction.count r
                   = Z.of_nat (length (MessageReaction.userIds r))) reactions.

Global Instance countsUsers_dec reactions : Decision (countsUsers reactions).
Proof. unfold countsUsers. apply _. Defined.

(** The sum [updateUnreadCount] hands to the status bar. *)
Definition totalOf (unreads : list Z) : Z := fold_left Z.add unreads 0.

(** The displays can be refreshed: somebody is signed in, the channel list
    exists and the stored messages are well formed. *)
Definition displayReady (st : Store) : Prop :=
  is_Some (currentUserInfo st) ∧ is_Some (channels st) ∧ messagesDefined st.

Global Instance displayReady_dec st : Decision (displayReady st).
Proof. unfold displayReady. apply _. Defined.



(** The reactions whose name is not [reactionName], in order. *)
Definition otherReactions (reactionName : string)
  (reactions : list MessageReaction.t) : list MessageReaction.t :=
  List.filter (fun r => negb (String.eqb (MessageReaction.name r) reactionName))
              reactions.

(** The first channel of a list with a given id. *)
Definition channelWithId (channelId : string) (chs : list Channel.t)
  : option Channel.t :=
  List.find (fun channel => String.eqb (Channel.id channel) channelId) chs.

(** The users of the scenario, and a presence-less record of the first. *)
Definition aliceOnline : User.t := User.mk "U1" "alice" (Some true).
Definition bobUnknown : User.t := User.mk "U2" "bob" None.

Definition usersStore : Store :=
  set_users [("U1", aliceOnline); ("U2", bobUnknown)] scenarioStore.

(** A workspace around the scenario, with a bound provider and a token. *)
Definition scenarioWorkspace : Workspace :=
  mkWorkspace usersStore (Some "xoxp-token") (Some 0%nat).


(** * Properties *)

(** Closes a decidable closed goal by evaluation. *)
Ltac by_evaluation := apply (bool_decide_unpack _); vm_compute; exact I.

(** ** Lists filtered by a callback that may throw *)

Lemma filterR_ok {A} (f : A -> result bool) (g : A -> bool) (l : list A) :
  (∀ x, x ∈ l → f x = Ok (g x)) → filterR f l = Ok (List.filter g l).
Proof.
  induction l as [|x l IH]; intros Hf; simpl; [done|].
  rewrite (Hf x) by left.
  rewrite IH by (intros y Hy; apply Hf; by right).
  by destruct (g x).
Qed.




Lemma list_filter_bool {A} (g : A -> bool) (l : list A) :
  List.filter g l = filter (fun x => g x = true) l.
Proof.
  induction l as [|x l IH]; [done|].
  simpl. rewrite filter_cons. rewrite IH.
  destruct (g x) eqn:Hg; [by rewrite decide_True|by rewrite decide_False].
Qed.

Lemma size_map_filter {A} (P : string * A -> Prop) `{!∀ x, Decision (P x)}
  (m : gmap string A) :
  size (filter P m) = length (filter P (map_to_list m)).
Proof.
  rewrite map_filter_alt. apply map_size_list_to_map.
  apply (sublist_NoDup _ (map_to_list m).*1).
  - apply NoDup_fst_map_to_list.
  - apply fmap_sublist, sublist_filter.
Qed.

(** ** Unread counts *)

Section UnreadCount.

Variable num_gt : string -> string -> bool.

Lemma isChannelMuted_inMutedSet channelId st :
  isChannelMuted channelId st = bool_decide (inMutedSet channelId st).
Proof.
  destruct (decide (inMutedSet channelId st)) as [H|H].
  - rewrite (bool_decide_eq_true_2 _ H). revert H.
    unfold inMutedSet, isChannelMuted.
    destruct (UserPreferences.mutedChannels _); [|done].
    intros H. by apply bool_decide_eq_true_2.
  - rewrite (bool_decide_eq_false_2 _ H). revert H.
    unfold inMutedSet, isChannelMuted.
    destruct (UserPreferences.mutedChannels _); [|done].
    intros H. by apply bool_decide_eq_false_2.
Qed.

Lemma isUnreadMessage_ok st cu readTimestamp ts entry :
  currentUserInfo st = Some cu → is_Some entry →
  isUnreadMessage num_gt st readTimestamp ts entry
  = Ok (countsAsUnread num_gt st readTimestamp (ts, entry)).
Proof.
  intros Hcu [message ->]. unfold isUnreadMessage, countsAsUnread, unreadAfter.
  rewrite Hcu. unfold currentUserId. rewrite Hcu. simpl.
  destruct readTimestamp as [rts|]; [destruct (truthy rts)|];
    by rewrite ?andb_false_r.
Qed.

Lemma unreadMessages_ok st cu channel :
  currentUserInfo st = Some cu → entriesDefined (Channel.id channel) st →
  filterR (fun kv => isUnreadMessage num_gt st (read (Channel.readTimestamp channel))
                       (fst kv) (snd kv))
          (map_to_list (default ∅ (messages st !! Channel.id channel)))
  = Ok (List.filter (countsAsUnread num_gt st (read (Channel.readTimestamp channel)))
          (map_to_list (default ∅ (messages st !! Channel.id channel)))).
Proof.
  intros Hcu Hdef. apply filterR_ok. intros [ts entry] Hin. simpl.
  apply (isUnreadMessage_ok _ cu); [done|].
  apply elem_of_map_to_list in Hin. by apply (Hdef ts).
Qed.

Lemma countsAsUnread_length st channelId readTimestamp :
  Z.of_nat (length (List.filter (countsAsUnread num_gt st readTimestamp)
                      (map_to_list (default ∅ (messages st !! channelId)))))
  = match readTimestamp with
    | Some rts =>
      if decide (rts = "") then 0 else countUnreadAfter num_gt st channelId rts
    | None => 0
    end.
Proof.
  unfold countsAsUnread, countUnreadAfter.
  destruct readTimestamp as [rts|].
  - unfold truthy. destruct (String.eqb_spec rts "") as [->|Hne].
    + rewrite decide_True by done. simpl.
      by induction (map_to_list _) as [|? ? IH].
    + rewrite decide_False by done. simpl.
      by rewrite size_map_filter, list_filter_bool.
  - by induction (map_to_list _) as [|? ? IH].
Qed.








(** C1 (amended): where a current user is recorded and the stored entries of
    the channel are messages, [getUnreadCount] returns 0 for a muted
    channel; otherwise the provider-reported [unreadCount] when it is not 0;
    otherwise (no reported count, or a reported 0) the number of stored
    messages of other authors whose timestamp is strictly greater than
    [readTimestamp], which is 0 when [readTimestamp] is missing or empty. *)
Theorem getUnreadCount_amended_spec channel st cu :
  currentUserInfo st = Some cu →
  entriesDefined (Channel.id channel) st →
  getUnreadCount num_gt channel st = Ok (unreadCount_amended num_gt channel st).
Proof.
  intros Hcu Hdef. unfold getUnreadCount, unreadCount_amended.
  rewrite isChannelMuted_inMutedSet.
  destruct (decide (inMutedSet (Channel.id channel) st)) as [Hmuted|Hmuted].
  - by rewrite (bool_decide_eq_true_2 _ Hmuted).
  - rewrite (bool_decide_eq_false_2 _ Hmuted).
    rewrite (unreadMessages_ok _ cu) by done. f_equal.
    rewrite countsAsUnread_length.
    assert (match read (Channel.readTimestamp channel) with
            | Some rts =>
              if decide (rts = "") then 0
              else countUnreadAfter num_gt st (Channel.id channel) rts
            | None => 0
            end
            = match Channel.readTimestamp channel with
              | Value readTimestamp =>
                if decide (readTimestamp = "") then 0
                else countUnreadAfter num_gt st (Channel.id channel) readTimestamp
              | Absent | Undefined => 0
              end) as -> by by destruct (Channel.readTimestamp channel).
    destruct (Channel.unreadCount channel) as [| |n]; [done..|]. simpl.
    destruct (Z.eqb_spec n 0) as [->|Hn].
    + by rewrite decide_True.
    + by rewrite decide_False.
Qed.


End UnreadCount.

(** C1 (counterexample): for a channel read up to 99 whose provider-reported
    count is 0, with one later message of another user, the code counts the
    message while the reference definition returns the reported 0. *)
Lemma getUnreadCount_reported_zero_not_verbatim :
  getUnreadCount decimal_gt generalRead99Reported0 scenarioStore
  ≠ Ok (unreadCount_spec decimal_gt generalRead99Reported0 scenarioStore).
Proof. vm_compute. discriminate. Qed.

Lemma getUnreadCount_amended_spec_witness :
  currentUserInfo scenarioStore = Some userU1
  ∧ entriesDefined "C1" scenarioStore
  ∧ getUnreadCount decimal_gt generalRead99Reported0 scenarioStore = Ok 1.
Proof.
  split; [reflexivity|]. split; [by_evaluation|].
  rewrite (getUnreadCount_amended_spec decimal_gt generalRead99Reported0
             scenarioStore userU1); [reflexivity|reflexivity|by_evaluation].
Defined.

(** C2 (amended): in the scenario, with no [readTimestamp] on the channel,
    [getUnreadCount] returns 0 (no message counts as unread); once
    [readTimestamp] is 101 it returns 0 as well. *)
Theorem scenario_unread_counts :
  getUnreadCount decimal_gt general scenarioStore = Ok 0
  ∧ (let st := exec (updateChannel decimal_gt generalRead101) scenarioStore in
     getChannel (Some "C1") st = Ok (Some generalRead101)
     ∧ getUnreadCount decimal_gt generalRead101 st = Ok 0).
Proof. split; [|split]; vm_compute; reflexivity. Qed.

(** C2 (counterexample): the first count of the scenario is not 1. *)
Lemma scenario_unread_not_one :
  getUnreadCount decimal_gt general scenarioStore ≠ Ok 1.
Proof. vm_compute. discriminate. Qed.



(** ** Methods that only report *)

Lemma set_effects_nil st : set_effects (effects st ++ []) st = st.
Proof. destruct st. unfold set_effects. simpl. by rewrite app_nil_r. Qed.

Lemma set_effects_app st es es' :
  set_effects (effects (set_effects (effects st ++ es) st) ++ es')
              (set_effects (effects st ++ es) st)
  = set_effects (effects st ++ (es ++ es')) st.
Proof. unfold set_effects. simpl. by rewrite app_assoc. Qed.

Lemma onlyEmits_ret {A} (a : A) : onlyEmits (ret a).
Proof. intros st. exists []. simpl. by rewrite set_effects_nil. Qed.

Lemma onlyEmits_query {A} (q : Store -> result A) : onlyEmits (query q).
Proof. intros st. exists []. simpl. by rewrite set_effects_nil. Qed.

Lemma onlyEmits_emit e : onlyEmits (emit e).
Proof. intros st. by exists [e]. Qed.

Lemma onlyEmits_bind {A B} (m : M A) (k : A -> M B) :
  onlyEmits m → (∀ a, onlyEmits (k a)) → onlyEmits (bind m k).
Proof.
  intros Hm Hk st. unfold bind. destruct (Hm st) as [es Hes].
  destruct (m st) as [st' [a|]]; simpl in Hes; subst st'.
  - destruct (Hk a (set_effects (effects st ++ es) st)) as [es' ->].
    exists (es ++ es'). apply set_effects_app.
  - by exists es.
Qed.

Lemma onlyEmits_choice {A} (test : Store -> bool) (m m' : M A) :
  onlyEmits m → onlyEmits m' →
  onlyEmits (fun st => if test st then m st else m' st).
Proof. intros Hm Hm' st. destruct (test st); [apply Hm|apply Hm']. Qed.

Section Reporting.

Variable num_gt : string -> string -> bool.

Lemma updateUnreadCount_onlyEmits : onlyEmits (updateUnreadCount num_gt).
Proof.
  intros st. unfold updateUnreadCount.
  destruct (the_channels st) as [chs|]; [|apply (onlyEmits_ret tt)].
  destruct (mapR _ chs); [apply onlyEmits_emit|apply (onlyEmits_ret tt)].
Qed.

Lemma updateTreeViews_onlyEmits : onlyEmits (updateTreeViews num_gt).
Proof.
  apply (onlyEmits_choice isAuthenticated); [|apply (onlyEmits_ret tt)].
  apply onlyEmits_bind; [apply onlyEmits_query|intros labels].
  repeat (apply onlyEmits_bind; [apply onlyEmits_emit|intros _]).
  apply onlyEmits_bind; [apply onlyEmits_query|intros ims].
  intros st. apply onlyEmits_emit.
Qed.

Lemma updateWebviewUI_onlyEmits : onlyEmits updateWebviewUI.
Proof.
  intros st. unfold updateWebviewUI.
  destruct (getChannel _ st); [apply onlyEmits_emit|apply (onlyEmits_ret tt)].
Qed.

Lemma updateAllUI_onlyEmits : onlyEmits (updateAllUI num_gt).
Proof.
  apply onlyEmits_bind; [apply updateUnreadCount_onlyEmits|intros _].
  apply onlyEmits_bind; [apply updateTreeViews_onlyEmits|intros _].
  apply updateWebviewUI_onlyEmits.
Qed.

(** [updateMessages] replaces the mapping of the channel by the merged one
    and reports; nothing else of the model changes. *)
Lemma updateMessages_exec channelId newMessages st :
  ∃ es,
    exec (updateMessages num_gt channelId newMessages) st
    = set_effects (effects st ++ es)
        (set_messages
           (<[channelId :=
                mergeMessages (default ∅ (messages st !! channelId)) newMessages]>
              (messages st)) st).
Proof.
  set (st1 := set_messages
                (<[channelId :=
                     mergeMessages (default ∅ (messages st !! channelId)) newMessages]>
                   (messages st)) st).
  set (fill := fun st' : Store =>
                 if isSuperset (list_to_set (object_keys (users st')))
                      (messageUserIds (default ∅ (messages st' !! channelId)))
                 then (st', Ok tt)
                 else fillUpUsers
                        (difference
                           (messageUserIds (default ∅ (messages st' !! channelId)))
                           (list_to_set (object_keys (users st')))) st').
  assert (onlyEmits fill) as Hfill.
  { intros st'. unfold fill.
    destruct (isSuperset _ _); [apply (onlyEmits_ret tt)|apply onlyEmits_emit]. }
  destruct (onlyEmits_bind fill (fun _ => updateAllUI num_gt) Hfill
              (fun _ => updateAllUI_onlyEmits) st1) as [es Hes].
  exists es. exact Hes.
Qed.

Lemma updateMessages_messages channelId newMessages st :
  messages (exec (updateMessages num_gt channelId newMessages) st)
  = <[channelId := mergeMessages (default ∅ (messages st !! channelId)) newMessages]>
      (messages st).
Proof. by destruct (updateMessages_exec channelId newMessages st) as [es ->]. Qed.

End Reporting.

(** ** Merging messages *)

Lemma mergeMessages_lookup (old newMessages : gmap string (option Message.t)) ts :
  mergeMessages old newMessages !! ts
  = match newMessages !! ts with
    | Some (Some message) => Some (Some message)
    | Some None => None
    | None =>
      match old !! ts with
      | Some (Some message) => Some (Some message)
      | _ => None
      end
    end.
Proof.
  unfold mergeMessages. rewrite map_lookup_filter, lookup_union.
  destruct (newMessages !! ts) as [[message|]|], (old !! ts) as [[message'|]|];
    simpl; try done;
    try (by rewrite option_guard_True by (simpl; eauto));
    by rewrite option_guard_False by (simpl; intros [? ?]; done).
Qed.

Lemma mergeMessages_defined (old newMessages : gmap string (option Message.t)) :
  map_Forall (fun (_ : string) (entry : option Message.t) => is_Some entry)
             (mergeMessages old newMessages).
Proof.
  intros ts entry Hts. unfold mergeMessages in Hts.
  by apply map_lookup_filter_Some in Hts as [_ Hsome].
Qed.

Lemma mergeMessages_idemp (old newMessages : gmap string (option Message.t)) :
  mergeMessages (mergeMessages old newMessages) newMessages
  = mergeMessages old newMessages.
Proof.
  apply map_eq. intros ts. rewrite !mergeMessages_lookup.
  by destruct (newMessages !! ts) as [[message|]|], (old !! ts) as [[message'|]|].
Qed.

Section Merge.

Variable num_gt : string -> string -> bool.

(** C5: a merge that binds a timestamp to the deleted marker leaves no entry
    for that timestamp in the channel's mapping, stores no marker at all,
    and merging the same mapping again changes no stored message. *)
Theorem updateMessages_deleted_marker channelId newMessages ts st :
  newMessages !! ts = Some None →
  let st1 := exec (updateMessages num_gt channelId newMessages) st in
  (∃ channelMessages,
      messages st1 !! channelId = Some channelMessages
      ∧ channelMessages !! ts = None)
  ∧ entriesDefined channelId st1
  ∧ messages (exec (updateMessages num_gt channelId newMessages) st1)
    = messages st1.
Proof.
  intros Hdeleted st1. unfold st1, entriesDefined.
  rewrite !updateMessages_messages. rewrite !lookup_insert_eq. simpl.
  split; [|split].
  - eexists. split; [done|]. by rewrite mergeMessages_lookup, Hdeleted.
  - apply mergeMessages_defined.
  - by rewrite insert_insert_eq, mergeMessages_idemp.
Qed.

End Merge.

Lemma updateMessages_deleted_marker_witness :
  ({[ "100" := None ]} : gmap string (option Message.t)) !! "100" = Some None
  ∧ storedMessage "C1" "100"
      (exec (updateMessages decimal_gt "C1" {[ "100" := None ]}) scenarioStore)
    = None.
Proof.
  assert (({[ "100" := None ]} : gmap string (option Message.t)) !! "100"
          = Some None) as Hdeleted by reflexivity.
  split; [exact Hdeleted|].
  destruct (updateMessages_deleted_marker decimal_gt "C1" _ "100" scenarioStore
              Hdeleted) as ((channelMessages & Hchannel & Hts) & _).
  unfold storedMessage. rewrite Hchannel. exact Hts.
Defined.

(** ** Replacing and upserting collections *)

Lemma exec_bind_ok {A B} (m : M A) (k : A -> M B) st st' a :
  m st = (st', Ok a) → bind m k st = k a st'.
Proof. intros Hm. unfold bind. by rewrite Hm. Qed.

Lemma updateUsers_run newUsers st :
  updateUsers newUsers st
  = (set_effects
       (effects st
        ++ (if bool_decide (length newUsers <= STORAGE_SIZE_LIMIT)%nat
            then [GlobalStateUpdate stateKeys.USERS (StoredUsers newUsers)]
            else []))
       (set_users newUsers st), Ok tt).
Proof.
  unfold updateUsers, bind, modify, object_keys. simpl. rewrite length_map.
  destruct (bool_decide _); [done|].
  by rewrite <- (set_effects_nil (set_users newUsers st)) at 1.
Qed.

Lemma updateChannels_run newChannels st :
  updateChannels newChannels st
  = (set_effects
       (effects st
        ++ (if bool_decide (length newChannels <= STORAGE_SIZE_LIMIT)%nat
            then [GlobalStateUpdate stateKeys.CHANNELS (StoredChannels newChannels)]
            else []))
       (set_channels (Some newChannels) st), Ok tt).
Proof.
  unfold updateChannels, bind, modify. simpl.
  destruct (bool_decide _); [done|].
  simpl. by rewrite <- (set_effects_nil (set_channels _ st)) at 1.
Qed.

Lemma spread_idemp channel newChannel :
  Channel.spread (Channel.spread channel newChannel) newChannel
  = Channel.spread channel newChannel.
Proof.
  unfold Channel.spread. simpl.
  by destruct (Channel.readTimestamp newChannel), (Channel.unreadCount newChannel).
Qed.

Lemma spread_self newChannel : Channel.spread newChannel newChannel = newChannel.
Proof.
  destruct newChannel as [i n t rts uc]. unfold Channel.spread. simpl.
  by destruct rts, uc.
Qed.

Lemma updatedChannels_idemp newChannel chs :
  updatedChannels newChannel (updatedChannels newChannel chs)
  = updatedChannels newChannel chs.
Proof.
  unfold updatedChannels.
  set (same := fun channel : Channel.t =>
                 String.eqb (Channel.id channel) (Channel.id newChannel)).
  set (merged := fun channel : Channel.t =>
                   if same channel then Channel.spread channel newChannel else channel).
  assert (∀ channel, same (merged channel) = same channel) as Hsame.
  { intros channel. unfold merged. destruct (same channel) eqn:Hc; [|done].
    unfold same. simpl. apply String.eqb_refl. }
  assert (∀ channel, merged (merged channel) = merged channel) as Hmerged.
  { intros channel. unfold merged at 1. rewrite Hsame. unfold merged.
    destruct (same channel); [apply spread_idemp|done]. }
  assert (∀ l, existsb same (map merged l) = existsb same l) as Hfound.
  { induction l as [|c l IH]; [done|]. simpl. by rewrite Hsame, IH. }
  assert (∀ l, map merged (map merged l) = map merged l) as Hmap.
  { induction l as [|c l IH]; [done|]. simpl. by rewrite Hmerged, IH. }
  destruct (existsb same chs) eqn:Hchs.
  - by rewrite Hfound, Hchs, Hmap.
  - rewrite existsb_app, Hfound, Hchs. simpl.
    assert (same newChannel = true) as Hnew by apply String.eqb_refl.
    rewrite Hnew, map_app, Hmap. simpl.
    by rewrite String.eqb_refl, spread_self.
Qed.

Section Upsert.

Variable num_gt : string -> string -> bool.

Lemma updateChannel_channels newChannel st :
  channels (exec (updateChannel num_gt newChannel) st)
  = updatedChannels newChannel <$> channels st.
Proof.
  unfold exec, updateChannel.
  destruct (channels st) as [chs|] eqn:Hchs.
  - rewrite (exec_bind_ok _ _ st st chs)
      by (unfold query, the_channels; by rewrite Hchs).
    erewrite exec_bind_ok by apply updateChannels_run.
    destruct (updateTreeViews_onlyEmits num_gt
                (set_effects
                   (effects st
                    ++ (if bool_decide
                             (length (updatedChannels newChannel chs)
                              <= STORAGE_SIZE_LIMIT)%nat
                        then [GlobalStateUpdate stateKeys.CHANNELS
                                (StoredChannels (updatedChannels newChannel chs))]
                        else []))
                   (set_channels (Some (updatedChannels newChannel chs)) st)))
      as [es ->].
    done.
  - unfold bind, query, the_channels. rewrite Hchs. simpl. by rewrite Hchs.
Qed.

(** C7: applying [updateChannel] twice with the same channel leaves the
    collection that one application produces, which is the upsert of the
    channel into the collection; content and size are the same. *)
Theorem updateChannel_idempotent newChannel st :
  let st1 := exec (updateChannel num_gt newChannel) st in
  let st2 := exec (updateChannel num_gt newChannel) st1 in
  channels st1 = updatedChannels newChannel <$> channels st
  ∧ channels st2 = channels st1
  ∧ length <$> channels st2 = length <$> channels st1.
Proof.
  intros st1 st2. unfold st2, st1. rewrite !updateChannel_channels.
  assert (updatedChannels newChannel <$> (updatedChannels newChannel <$> channels st)
          = updatedChannels newChannel <$> channels st) as Hidem.
  { destruct (channels st) as [chs|]; [|done]. simpl.
    by rewrite updatedChannels_idemp. }
  split; [done|]. by rewrite Hidem.
Qed.

End Upsert.

(** C8: [updateUsers] and [updateChannels] always replace the collection in
    memory, and call the persistence [update] for their key exactly when the
    collection has at most 100 entries; with 150 users the store holds the
    150 and nothing is persisted. *)
Theorem persistence_cap st :
  (∀ newUsers,
      users (exec (updateUsers newUsers) st) = newUsers
      ∧ effects (exec (updateUsers newUsers) st)
        = effects st
          ++ (if decide (length newUsers ≤ 100)%nat
              then [GlobalStateUpdate "users" (StoredUsers newUsers)]
              else []))
  ∧ (∀ newChannels,
        channels (exec (updateChannels newChannels) st) = Some newChannels
        ∧ effects (exec (updateChannels newChannels) st)
          = effects st
            ++ (if decide (length newChannels ≤ 100)%nat
                then [GlobalStateUpdate "channels" (StoredChannels newChannels)]
                else []))
  ∧ length users150 = 150%nat
  ∧ users (exec (updateUsers users150) st) = users150
  ∧ effects (exec (updateUsers users150) st) = effects st.
Proof.
  assert (∀ newUsers,
      users (exec (updateUsers newUsers) st) = newUsers
      ∧ effects (exec (updateUsers newUsers) st)
        = effects st
          ++ (if decide (length newUsers ≤ 100)%nat
              then [GlobalStateUpdate "users" (StoredUsers newUsers)]
              else [])) as Husers.
  { intros newUsers. unfold exec. rewrite updateUsers_run. simpl.
    split; [done|]. unfold STORAGE_SIZE_LIMIT, bool_decide.
    by destruct (decide_rel le _ _). }
  split; [done|]. split.
  - intros newChannels. unfold exec. rewrite updateChannels_run. simpl.
    split; [done|]. unfold STORAGE_SIZE_LIMIT, bool_decide.
    by destruct (decide_rel le _ _).
  - split; [by vm_compute|]. destruct (Husers users150) as [-> ->].
    split; [done|]. rewrite decide_False; [by rewrite app_nil_r|].
    vm_compute. lia.
Qed.

(** ** Merges into a missing parent *)

Lemma storedMessage_default channelId ts st :
  default ∅ (messages st !! channelId) !! ts = storedMessage channelId ts st.
Proof. unfold storedMessage. by destruct (messages st !! channelId). Qed.

Section MissingParent.

Variable num_gt : string -> string -> bool.


End MissingParent.


(** ** The current team *)

Lemma updateCurrentUser_info info st :
  currentUserInfo (exec (updateCurrentUser (Some info)) st)
  = Some (CurrentUser.with_currentTeamId
            (if truthy_opt (CurrentUser.currentTeamId info)
             then CurrentUser.currentTeamId info
             else currentUserInfo st ≫= CurrentUser.currentTeamId)
            info).
Proof.
  unfold exec, updateCurrentUser, bind, modify. simpl.
  by destruct (currentUserInfo st).
Qed.

Lemma subsequentUpdates_teamId infos : ∀ st cu,
  currentUserInfo st = Some cu →
  ∃ cu', currentUserInfo (subsequentUpdates infos st) = Some cu'
         ∧ CurrentUser.currentTeamId cu'
           = latestTeamId (CurrentUser.currentTeamId cu) infos.
Proof.
  induction infos as [|info infos IH]; intros st cu Hcu; [by exists cu|].
  simpl. edestruct IH as (cu' & Hcu' & Hteam).
  { rewrite updateCurrentUser_info. done. }
  exists cu'. split; [done|]. rewrite Hteam. unfold latestTeamId. simpl.
  by rewrite Hcu.
Qed.

Lemma latestTeamId_defined infos : ∀ recorded,
  is_Some recorded → is_Some (latestTeamId recorded infos).
Proof.
  induction infos as [|info infos IH]; intros recorded Hrec; [done|].
  unfold latestTeamId. simpl. apply IH.
  destruct (CurrentUser.currentTeamId info) as [teamId|]; [|done].
  simpl. by destruct (truthy teamId).
Qed.

Lemma latestTeamId_not_supplied infos : ∀ recorded,
  Forall (fun info => CurrentUser.currentTeamId info = None) infos →
  latestTeamId recorded infos = recorded.
Proof.
  induction infos as [|info infos IH]; intros recorded Hnone; [done|].
  inversion Hnone as [|? ? Hinfo Hrest]; subst.
  unfold latestTeamId. simpl. rewrite Hinfo. simpl. by apply IH.
Qed.

(** C6: once a [currentTeamId] is recorded, after any series of
    [updateCurrentUser] calls with user records the current user still has a
    [currentTeamId]: the last one a record supplied, and the recorded one
    when no record of the series carries a [currentTeamId]. *)
Theorem currentTeamId_preserved infos st cu teamId :
  currentUserInfo st = Some cu →
  CurrentUser.currentTeamId cu = Some teamId →
  ∃ cu', currentUserInfo (subsequentUpdates infos st) = Some cu'
         ∧ is_Some (CurrentUser.currentTeamId cu')
         ∧ CurrentUser.currentTeamId cu' = latestTeamId (Some teamId) infos
         ∧ (Forall (fun info => CurrentUser.currentTeamId info = None) infos →
            CurrentUser.currentTeamId cu' = Some teamId).
Proof.
  intros Hcu Hteam.
  destruct (subsequentUpdates_teamId infos st cu Hcu) as (cu' & Hcu' & Hlatest).
  rewrite Hteam in Hlatest. exists cu'. split; [done|]. split; [|split; [done|]].
  - rewrite Hlatest. by apply latestTeamId_defined.
  - intros Hnone. by rewrite Hlatest, latestTeamId_not_supplied.
Qed.

Lemma currentTeamId_preserved_witness :
  currentUserInfo teamStore = Some (CurrentUser.mk (Some "U1") (Some "T1") None)
  ∧ ∃ cu', currentUserInfo (subsequentUpdates [partialUser; partialUser] teamStore)
           = Some cu'
           ∧ CurrentUser.currentTeamId cu' = Some "T1".
Proof.
  split; [reflexivity|].
  destruct (currentTeamId_preserved [partialUser; partialUser] teamStore
              (CurrentUser.mk (Some "U1") (Some "T1") None) "T1"
              eq_refl eq_refl) as (cu' & Hcu' & _ & _ & Hkept).
  exists cu'. split; [exact Hcu'|].
  apply Hkept. repeat constructor.
Defined.

(** ** Cached collections and promises *)

Lemma getUsersPromise_cached now st :
  users st ≠ [] →
  outcome (getUsersPromise now) st = Ok (Resolved (users st)).
Proof.
  intros Hne. unfold outcome, getUsersPromise, isNotEmpty, object_keys.
  destruct (users st) as [|entry entries] eqn:Husers; [done|]. simpl.
  unfold bind. destruct (shouldFetchNew now (usersFetchedAt st)); simpl;
    by rewrite Husers.
Qed.

Lemma getUsersPromise_empty now st :
  users st = [] →
  outcome (getUsersPromise now) st = Ok (Chained FetchUsers).
Proof.
  intros Hempty. unfold outcome, getUsersPromise, isNotEmpty, object_keys.
  by rewrite Hempty.
Qed.

Lemma fetchUsers_then_outcome now fetched st :
  outcome (fetchUsers_then now fetched) st = Ok fetched.
Proof.
  unfold outcome, fetchUsers_then.
  erewrite exec_bind_ok by apply updateUsers_run. done.
Qed.

Lemma getChannelsPromise_cached now st chs :
  channels st = Some chs →
  outcome (getChannelsPromise now) st = Ok (Resolved chs).
Proof.
  intros Hchs. unfold outcome, getChannelsPromise. rewrite Hchs.
  unfold bind. by destruct (shouldFetchNew now (channelsFetchedAt st)).
Qed.

Lemma getChannelsPromise_undefined now st :
  channels st = None →
  outcome (getChannelsPromise now) st = Ok (Chained (FetchChannels (users st))).
Proof. intros Hchs. unfold outcome, getChannelsPromise. by rewrite Hchs. Qed.

(** C3 (the code at the failing input): with an empty channel list cached,
    [getChannelsPromise] resolves at once with the empty list, whatever the
    age of the cache, where [getUsersPromise] on an empty cache hands back
    the promise of the provider fetch. *)
Theorem getChannelsPromise_empty_cache now st :
  outcome (getChannelsPromise now) (set_channels (Some []) st) = Ok (Resolved [])
  ∧ outcome (getUsersPromise now) (set_users [] st) = Ok (Chained FetchUsers).
Proof.
  split.
  - by apply getChannelsPromise_cached.
  - by apply getUsersPromise_empty.
Qed.

(** ** Reactions *)










Section Reactions.

Variable num_gt : string -> string -> bool.

Lemma updateMessages_single_stored channelId ts message st :
  storedMessage channelId ts
    (exec (updateMessages num_gt channelId {[ ts := Some message ]}) st)
  = Some (Some message).
Proof.
  unfold storedMessage. rewrite updateMessages_messages, lookup_insert_eq. simpl.
  by rewrite mergeMessages_lookup, lookup_singleton_eq.
Qed.


Lemma removeReaction_stored channelId ts userId reactionName message st :
  storedMessage channelId ts st = Some (Some message) →
  storedMessage channelId ts
    (exec (removeReaction num_gt channelId ts userId reactionName) st)
  = Some (Some (Message.with_reactions
                  (removedReaction userId reactionName (Message.reactions message))
                  message)).
Proof.
  intros Hstored. unfold exec, removeReaction. unfold storedMessage in Hstored.
  destruct (messages st !! channelId) as [channelMessages|]; [|done].
  simpl in Hstored. rewrite Hstored. apply updateMessages_single_stored.
Qed.


End Reactions.



(** * Further properties *)

(** ** Labels and totals *)

Section Labels.

Variable num_gt : string -> string -> bool.


Lemma channelLabel_fields st channel label :
  channelLabel num_gt st channel = Ok label →
  ChannelLabel.channel label = channel
  ∧ getUnreadCount num_gt channel st = Ok (ChannelLabel.unread label).
Proof.
  unfold channelLabel. destruct (getUnreadCount num_gt channel st) as [n|]; [|done].
  match goal with
  | |- match ?online with _ => _ end = _ → _ => destruct online; [|done]
  end.
  by intros [= <-].
Qed.

Lemma getChannelLabels_fields chs : ∀ st labels,
  mapR (channelLabel num_gt st) chs = Ok labels →
  map ChannelLabel.channel labels = chs
  ∧ mapR (fun channel => getUnreadCount num_gt channel st) chs
    = Ok (map ChannelLabel.unread labels).
Proof.
  induction chs as [|channel chs IH]; intros st labels; simpl.
  - by intros [= <-].
  - destruct (channelLabel num_gt st channel) as [label|] eqn:Hlabel; [|done].
    destruct (mapR (channelLabel num_gt st) chs) as [rest|] eqn:Hrest; [|done].
    intros [= <-]. apply channelLabel_fields in Hlabel as [Hchannel Hunread].
    destruct (IH st rest Hrest) as [Hchannels Hunreads].
    simpl. by rewrite Hchannel, Hchannels, Hunread, Hunreads.
Qed.

(** X2: when [getChannelLabels] returns, it gives one label per channel, in
    the order of the channel list, and the total [updateUnreadCount] hands
    to the status bar is the sum of the unread counts of these labels. *)
Theorem labels_agree_with_total st labels :
  getChannelLabels num_gt st = Ok labels →
  channels st = Some (map ChannelLabel.channel labels)
  ∧ updateUnreadCount num_gt st
    = (set_effects
         (effects st
          ++ [StatusUpdateCount (totalOf (map ChannelLabel.unread labels))]) st,
       Ok tt).
Proof.
  unfold getChannelLabels, updateUnreadCount, the_channels.
  destruct (channels st) as [chs|]; [|done]. intros Hlabels.
  apply getChannelLabels_fields in Hlabels as [Hchannels Hunreads].
  by rewrite Hchannels, Hunreads.
Qed.

End Labels.


Lemma labels_agree_with_total_witness :
  (∃ labels, getChannelLabels decimal_gt scenarioStore = Ok labels)
  ∧ effects (exec (updateUnreadCount decimal_gt) scenarioStore)
    = [StatusUpdateCount 0].
Proof.
  destruct (getChannelLabels decimal_gt scenarioStore) as [labels|] eqn:Hlabels;
    [|by vm_compute in Hlabels].
  split; [by eexists|].
  destruct (labels_agree_with_total decimal_gt scenarioStore labels Hlabels)
    as [_ Hrun].
  unfold exec. rewrite Hrun. vm_compute in Hlabels. injection Hlabels as <-.
  reflexivity.
Defined.

(** ** Well-formed messages and safe refreshes *)


Lemma messagesDefined_merge channelId newMessages st :
  messagesDefined st →
  messagesDefined
    (set_messages
       (<[channelId :=
            mergeMessages (default ∅ (messages st !! channelId)) newMessages]>
          (messages st)) st).
Proof.
  unfold messagesDefined. simpl. intros Hdef.
  apply map_Forall_insert_2; [apply mergeMessages_defined|done].
Qed.



Section Refresh.

Variable num_gt : string -> string -> bool.









(** X4: the message store never comes to hold the deleted marker: a store
    whose messages are well formed has well-formed messages after
    [updateMessages], [addReaction], [removeReaction], [updateMessageReply]
    and the callback of [fetchThreadReplies], whether they return or
    throw. *)
Theorem messages_stay_defined st :
  messagesDefined st →
  (∀ channelId newMessages,
      messagesDefined (exec (updateMessages num_gt channelId newMessages) st))
  ∧ (∀ channelId ts userId reactionName,
        messagesDefined (exec (addReaction num_gt channelId ts userId reactionName) st)
        ∧ messagesDefined
            (exec (removeReaction num_gt channelId ts userId reactionName) st))
  ∧ (∀ parentTimestamp channelId reply,
        messagesDefined
          (exec (updateMessageReply num_gt parentTimestamp channelId reply) st))
  ∧ (∀ currentChannelId parentTimestamp message,
        messagesDefined
          (exec (fetchThreadReplies_then num_gt currentChannelId parentTimestamp
                   message) st)).
Proof.
  intros Hdef.
  assert (∀ channelId newMessages,
      messagesDefined (exec (updateMessages num_gt channelId newMessages) st))
    as Hmerge.
  { intros channelId newMessages.
    destruct (updateMessages_exec num_gt channelId newMessages st) as [es ->].
    by apply (messagesDefined_merge channelId newMessages st). }
  split; [done|]. split; [|split].
  - intros channelId ts userId reactionName. unfold exec, addReaction, removeReaction.
    destruct (messages st !! channelId) as [channelMessages|]; [|done].
    destruct (channelMessages !! ts) as [[message|]|]; [|done|done].
    split; apply Hmerge.
  - intros parentTimestamp channelId reply. unfold exec, updateMessageReply.
    destruct (default None _) as [message|]; [|done]. apply Hmerge.
  - intros. apply Hmerge.
Qed.

End Refresh.


Lemma messages_stay_defined_witness :
  messagesDefined scenarioStore
  ∧ messagesDefined
      (exec (updateMessages decimal_gt "C1" {[ "100" := None ]}) scenarioStore).
Proof.
  assert (messagesDefined scenarioStore) as Hdef by by_evaluation.
  split; [exact Hdef|].
  destruct (messages_stay_defined decimal_gt scenarioStore Hdef) as (Hmerge & _).
  exact (Hmerge "C1" {[ "100" := None ]}).
Defined.

(** ** What a merge stores *)

Section MergeContents.

Variable num_gt : string -> string -> bool.

(** X5: [updateMessages] stores every message of the new mapping, removes
    the timestamps the mapping marks as deleted, keeps the other messages of
    the channel, and changes no other channel and no other part of the
    model. *)
Theorem updateMessages_contents channelId newMessages st :
  let st1 := exec (updateMessages num_gt channelId newMessages) st in
  (∀ ts,
      storedMessage channelId ts st1
      = match newMessages !! ts with
        | Some (Some message) => Some (Some message)
        | Some None => None
        | None =>
          match storedMessage channelId ts st with
          | Some (Some message) => Some (Some message)
          | _ => None
          end
        end)
  ∧ (∀ other, other ≠ channelId → messages st1 !! other = messages st !! other)
  ∧ channels st1 = channels st ∧ users st1 = users st
  ∧ currentUserInfo st1 = currentUserInfo st
  ∧ currentUserPrefs st1 = currentUserPrefs st
  ∧ lastChannelId st1 = lastChannelId st
  ∧ usersFetchedAt st1 = usersFetchedAt st
  ∧ channelsFetchedAt st1 = channelsFetchedAt st.
Proof.
  intros st1. unfold st1.
  destruct (updateMessages_exec num_gt channelId newMessages st) as [es Hexec].
  split; [|split; [|by rewrite Hexec]].
  - intros ts. unfold storedMessage at 1.
    rewrite updateMessages_messages, lookup_insert_eq. simpl.
    by rewrite mergeMessages_lookup, storedMessage_default.
  - intros other Hother. rewrite updateMessages_messages.
    by rewrite lookup_insert_ne.
Qed.

(** X6: two merges into a channel, one after the other, store what a single
    merge of the two mappings stores, the later mapping winning. *)
Theorem updateMessages_twice channelId first second st :
  messages (exec (updateMessages num_gt channelId second)
                 (exec (updateMessages num_gt channelId first) st))
  = messages (exec (updateMessages num_gt channelId (second ∪ first)) st).
Proof.
  rewrite !updateMessages_messages, lookup_insert_eq, insert_insert_eq. simpl.
  f_equal. apply map_eq. intros ts.
  rewrite !mergeMessages_lookup, lookup_union.
  by destruct (second !! ts) as [[?|]|], (first !! ts) as [[?|]|],
       (default ∅ (messages st !! channelId) !! ts) as [[?|]|].
Qed.

(** X7: a reply to a stored message is kept under its own timestamp among
    the replies of the parent; the other replies, the reactions, the author
    and the content of the parent stay, and the same reply merged again
    changes no stored message. *)
Theorem updateMessageReply_stored parentTimestamp channelId reply message st :
  storedMessage channelId parentTimestamp st = Some (Some message) →
  let st1 := exec (updateMessageReply num_gt parentTimestamp channelId reply) st in
  (∃ parent,
      storedMessage channelId parentTimestamp st1 = Some (Some parent)
      ∧ Message.replies parent !! MessageReply.timestamp reply = Some reply
      ∧ (∀ ts, ts ≠ MessageReply.timestamp reply →
               Message.replies parent !! ts = Message.replies message !! ts)
      ∧ Message.reactions parent = Message.reactions message
      ∧ Message.userId parent = Message.userId message
      ∧ Message.content parent = Message.content message)
  ∧ messages (exec (updateMessageReply num_gt parentTimestamp channelId reply) st1)
    = messages st1.
Proof.
  intros Hstored st1.
  assert (∀ st' parent,
     storedMessage channelId parentTimestamp st' = Some (Some parent) →
     exec (updateMessageReply num_gt parentTimestamp channelId reply) st'
     = exec (updateMessages num_gt channelId
               {[ parentTimestamp :=
                    Some (Message.with_replies
                            (<[MessageReply.timestamp reply := reply]>
                               (Message.replies parent)) parent) ]}) st') as Hrun.
  { intros st' parent Hparent. unfold exec, updateMessageReply.
    by rewrite storedMessage_default, Hparent. }
  assert (storedMessage channelId parentTimestamp st1
          = Some (Some (Message.with_replies
                          (<[MessageReply.timestamp reply := reply]>
                             (Message.replies message)) message))) as Hstored1.
  { unfold st1. rewrite (Hrun st message Hstored).
    apply updateMessages_single_stored. }
  split.
  - eexists. split; [exact Hstored1|]. simpl.
    split; [by rewrite lookup_insert_eq|].
    split; [|done]. intros ts Hts. by rewrite lookup_insert_ne.
  - rewrite (Hrun st1 _ Hstored1). unfold Message.with_replies. simpl.
    rewrite insert_insert_eq, updateMessages_messages.
    unfold st1. rewrite (Hrun st message Hstored). unfold Message.with_replies.
    rewrite !updateMessages_messages, lookup_insert_eq, insert_insert_eq. simpl.
    by rewrite mergeMessages_idemp.
Qed.

End MergeContents.

Lemma updateMessageReply_stored_witness :
  storedMessage "C1" "100" scenarioStore = Some (Some (messageOf "U2" []))
  ∧ ∃ parent,
      storedMessage "C1" "100"
        (exec (updateMessageReply decimal_gt "100" "C1"
                 (MessageReply.mk "101" "U1" "thanks")) scenarioStore)
      = Some (Some parent)
      ∧ Message.replies parent !! "101" = Some (MessageReply.mk "101" "U1" "thanks").
Proof.
  split; [reflexivity|].
  destruct (updateMessageReply_stored decimal_gt "100" "C1"
              (MessageReply.mk "101" "U1" "thanks") (messageOf "U2" [])
              scenarioStore eq_refl) as ((parent & Hparent & Hreply & _) & _).
  exists parent. split; [exact Hparent|exact Hreply].
Defined.

(** ** What the reaction methods store *)





Lemma removedReaction_effect userId reactionName reactions :
  Forall (fun r => 0 < MessageReaction.count r)
         (removedReaction userId reactionName reactions)
  ∧ Forall (fun r => MessageReaction.name r = reactionName →
                     userId ∉ MessageReaction.userIds r)
           (removedReaction userId reactionName reactions)
  ∧ otherReactions reactionName (removedReaction userId reactionName reactions)
    = List.filter (fun r => 0 <? MessageReaction.count r)
        (otherReactions reactionName reactions).
Proof.
  unfold removedReaction. split; [|split].
  - apply Forall_forall. intros r Hr.
    apply list_elem_of_In, filter_In in Hr as [_ Hpos]. by apply Z.ltb_lt.
  - apply Forall_forall. intros r Hr Hname.
    apply list_elem_of_In, filter_In in Hr as [Hr _].
    apply in_map_iff in Hr as (r0 & Hr & _).
    destruct (String.eqb (MessageReaction.name r0) reactionName) eqn:Hr0.
    + subst r. simpl. intros Hin.
      apply list_elem_of_In, filter_In in Hin as [_ Hother].
      by rewrite String.eqb_refl in Hother.
    + subst r. by apply String.eqb_neq in Hr0.
  - unfold otherReactions.
    induction reactions as [|r0 reactions IH]; [done|]. simpl.
    destruct (String.eqb (MessageReaction.name r0) reactionName) eqn:Hr0; simpl.
    + destruct (0 <? MessageReaction.count r0 - 1); [|done].
      simpl. by rewrite Hr0.
    + destruct (0 <? MessageReaction.count r0); simpl; [|done].
      by rewrite Hr0, IH.
Qed.

Section ReactionContents.

Variable num_gt : string -> string -> bool.




(** X10: after [removeReaction] on a stored message no reaction is left with
    a count of 0 or less, the user is listed in no reaction of that name,
    and the reactions of other names are the former ones with a positive
    count, in order. *)
Theorem removeReaction_effect channelId ts userId reactionName message st :
  storedMessage channelId ts st = Some (Some message) →
  ∃ reactions',
    storedReactions channelId ts
      (exec (removeReaction num_gt channelId ts userId reactionName) st)
    = Some reactions'
    ∧ Forall (fun r => 0 < MessageReaction.count r) reactions'
    ∧ Forall (fun r => MessageReaction.name r = reactionName →
                       userId ∉ MessageReaction.userIds r) reactions'
    ∧ otherReactions reactionName reactions'
      = List.filter (fun r => 0 <? MessageReaction.count r)
          (otherReactions reactionName (Message.reactions message)).
Proof.
  intros Hstored. eexists. split.
  - unfold storedReactions.
    by rewrite (removeReaction_stored num_gt _ _ _ _ message).
  - apply removedReaction_effect.
Qed.

End ReactionContents.



Lemma removeReaction_effect_witness :
  storedMessage "C1" "100" reactedStore = Some (Some (messageOf "U2" [thumbsUp]))
  ∧ ∃ reactions',
      storedReactions "C1" "100"
        (exec (removeReaction decimal_gt "C1" "100" "U1" "+1") reactedStore)
      = Some reactions'
      ∧ Forall (fun r => 0 < MessageReaction.count r) reactions'.
Proof.
  split; [reflexivity|].
  destruct (removeReaction_effect decimal_gt "C1" "100" "U1" "+1"
              (messageOf "U2" [thumbsUp]) reactedStore eq_refl)
    as (reactions' & Hstored & Hpositive & _).
  exists reactions'. split; [exact Hstored|exact Hpositive].
Defined.

(** ** Upserting a channel *)

Lemma updatedChannels_ids newChannel chs :
  map Channel.id (updatedChannels newChannel chs)
  = if bool_decide (Channel.id newChannel ∈ map Channel.id chs)
    then map Channel.id chs
    else map Channel.id chs ++ [Channel.id newChannel].
Proof.
  unfold updatedChannels.
  assert (map Channel.id
            (map (fun channel =>
                    if String.eqb (Channel.id channel) (Channel.id newChannel)
                    then Channel.spread channel newChannel else channel) chs)
          = map Channel.id chs) as Hids.
  { rewrite map_map. apply map_ext. intros channel.
    destruct (String.eqb_spec (Channel.id channel) (Channel.id newChannel));
      [done|done]. }
  assert (existsb (fun channel =>
                     String.eqb (Channel.id channel) (Channel.id newChannel)) chs
          = bool_decide (Channel.id newChannel ∈ map Channel.id chs)) as ->.
  { clear Hids. induction chs as [|channel chs IH]; cbn [existsb map].
    - symmetry. apply bool_decide_eq_false_2, not_elem_of_nil.
    - rewrite IH.
      destruct (String.eqb_spec (Channel.id channel) (Channel.id newChannel))
        as [Heq|Hne]; cbn [orb].
      + symmetry. apply bool_decide_eq_true_2. rewrite Heq. left.
      + apply bool_decide_ext. rewrite elem_of_cons.
        split; [by right|]. intros [Heq|Hin]; [by subst|done]. }
  destruct (bool_decide _); [done|]. by rewrite map_app, Hids.
Qed.

Lemma channelWithId_updated newChannel chs :
  channelWithId (Channel.id newChannel) (updatedChannels newChannel chs)
  = Some (match channelWithId (Channel.id newChannel) chs with
          | Some channel => Channel.spread channel newChannel
          | None => newChannel
          end).
Proof.
  unfold updatedChannels, channelWithId.
  induction chs as [|channel chs IH]; simpl.
  - by rewrite String.eqb_refl.
  - destruct (String.eqb (Channel.id channel) (Channel.id newChannel)) eqn:Hid;
      simpl.
    + by rewrite String.eqb_refl.
    + destruct (existsb _ chs); simpl in *; by rewrite Hid.
Qed.

Lemma find_app_last {A} (f : A -> bool) (l : list A) (x : A) :
  f x = false → List.find f (l ++ [x]) = List.find f l.
Proof.
  intros Hx. induction l as [|y l IH]; simpl; [by rewrite Hx|].
  by destruct (f y).
Qed.

Lemma channelWithId_other newChannel chs channelId :
  channelId ≠ Channel.id newChannel →
  channelWithId channelId (updatedChannels newChannel chs)
  = channelWithId channelId chs.
Proof.
  intros Hother. unfold updatedChannels, channelWithId.
  assert (String.eqb (Channel.id newChannel) channelId = false) as Hnew
    by (apply String.eqb_neq; congruence).
  assert (List.find (fun channel => String.eqb (Channel.id channel) channelId)
            (map (fun channel =>
                    if String.eqb (Channel.id channel) (Channel.id newChannel)
                    then Channel.spread channel newChannel else channel) chs)
          = List.find (fun channel => String.eqb (Channel.id channel) channelId) chs)
    as Hmapped.
  { induction chs as [|channel chs IH]; [done|]. simpl.
    destruct (String.eqb_spec (Channel.id channel) (Channel.id newChannel))
      as [Hid|Hid]; simpl.
    - by rewrite Hid, Hnew.
    - by rewrite IH. }
  destruct (existsb _ chs); [done|].
  by rewrite find_app_last.
Qed.

Section UpsertContents.

Variable num_gt : string -> string -> bool.

(** X11: [updateChannel] keeps the ids of the channel list distinct and in
    order: a channel whose id is already listed is merged where it stands,
    another one is appended. *)
Theorem updateChannel_keeps_ids newChannel chs st :
  channels st = Some chs →
  NoDup (map Channel.id chs) →
  ∃ chs',
    channels (exec (updateChannel num_gt newChannel) st) = Some chs'
    ∧ NoDup (map Channel.id chs')
    ∧ map Channel.id chs'
      = if bool_decide (Channel.id newChannel ∈ map Channel.id chs)
        then map Channel.id chs
        else map Channel.id chs ++ [Channel.id newChannel].
Proof.
  intros Hchs Hnodup. exists (updatedChannels newChannel chs).
  rewrite updateChannel_channels, Hchs. split; [done|].
  rewrite updatedChannels_ids. split; [|done].
  destruct (bool_decide (Channel.id newChannel ∈ map Channel.id chs)) eqn:Hin;
    [done|].
  apply bool_decide_eq_false in Hin.
  apply NoDup_app. split; [done|]. split; [|apply NoDup_singleton].
  intros channelId Hold Hnew. apply list_elem_of_singleton in Hnew. by subst.
Qed.

(** X12: after [updateChannel], [getChannel] with the id of the channel
    gives the channel merged over the one that had this id, or the channel
    itself when there was none, and gives what it gave before for every
    other id. *)
Theorem updateChannel_getChannel newChannel chs st :
  channels st = Some chs →
  let st1 := exec (updateChannel num_gt newChannel) st in
  getChannel (Some (Channel.id newChannel)) st1
  = Ok (Some (match channelWithId (Channel.id newChannel) chs with
              | Some channel => Channel.spread channel newChannel
              | None => newChannel
              end))
  ∧ (∀ channelId, channelId ≠ Channel.id newChannel →
                  getChannel (Some channelId) st1 = getChannel (Some channelId) st).
Proof.
  intros Hchs st1. unfold getChannel, the_channels, st1.
  rewrite updateChannel_channels, Hchs. simpl. split.
  - f_equal. apply channelWithId_updated.
  - intros channelId Hother. f_equal. by apply channelWithId_other.
Qed.

End UpsertContents.

Lemma updateChannel_keeps_ids_witness :
  channels scenarioStore = Some [general]
  ∧ NoDup (map Channel.id [general])
  ∧ ∃ chs',
      channels (exec (updateChannel decimal_gt generalRead101) scenarioStore)
      = Some chs'
      ∧ map Channel.id chs' = ["C1"].
Proof.
  assert (NoDup (map Channel.id [general])) as Hnodup by by_evaluation.
  split; [reflexivity|]. split; [exact Hnodup|].
  destruct (updateChannel_keeps_ids decimal_gt generalRead101 [general]
              scenarioStore eq_refl Hnodup) as (chs' & Hchs' & _ & Hids).
  exists chs'. split; [exact Hchs'|exact Hids].
Defined.

Lemma updateChannel_getChannel_witness :
  channels scenarioStore = Some [general]
  ∧ getChannel (Some "C1")
      (exec (updateChannel decimal_gt generalRead101) scenarioStore)
    = Ok (Some generalRead101).
Proof.
  split; [reflexivity|].
  exact (proj1 (updateChannel_getChannel decimal_gt generalRead101 [general]
                  scenarioStore eq_refl)).
Defined.

(** ** Methods that only refresh displays *)





Section Displays.

Variable num_gt : string -> string -> bool.




End Displays.

(** ** The user cache *)




Lemma users_get_presence (g : string -> User.t -> User.t) users userId :
  users_get (map (fun entry : string * User.t =>
                    (fst entry, g (fst entry) (snd entry))) users) userId
  = g userId <$> users_get users userId.
Proof.
  unfold users_get. induction users as [|[key existing] users IH]; [done|].
  simpl. destruct (String.eqb_spec key userId) as [->|Hkey]; [done|done].
Qed.

Section UserCache.

Variable num_gt : string -> string -> bool.


(** X14: the callback of [fetchUsers] replaces the cache by the fetched
    users, key for key.  Each keeps its id and name; its presence is the one
    the provider gave, else the one the cache had for that key, else
    offline.  The fetch time becomes the current time and the promise
    resolves with the users as the provider sent them. *)
Theorem fetchUsers_then_presence now fetched st :
  let st1 := exec (fetchUsers_then now fetched) st in
  outcome (fetchUsers_then now fetched) st = Ok fetched
  ∧ object_keys (users st1) = object_keys fetched
  ∧ usersFetchedAt st1 = Some now
  ∧ ∀ userId,
      users_get (users st1) userId
      = (fun newUser =>
           User.with_isOnline
             (match User.isOnline newUser with
              | Some isOnline => Some isOnline
              | None =>
                match users_get (users st) userId with
                | Some existingUser => User.isOnline existingUser
                | None => Some false
                end
              end) newUser) <$> users_get fetched userId.
Proof.
  intros st1. split; [apply fetchUsers_then_outcome|].
  unfold st1, exec, fetchUsers_then.
  erewrite exec_bind_ok by apply updateUsers_run. simpl.
  split; [|split; [done|]].
  - unfold object_keys. rewrite map_map. by apply map_ext.
  - intros userId.
    apply (users_get_presence
             (fun userId newUser =>
                User.with_isOnline
                  (match User.isOnline newUser with
                   | Some isOnline => Some isOnline
                   | None =>
                     match users_get (users st) userId with
                     | Some existingUser => User.isOnline existingUser
                     | None => Some false
                     end
                   end) newUser)).
Qed.

(** X15: once the callback of [fetchUsers] has stored a non-empty collection
    at some time, [getUsersPromise] resolves with the stored users; it does
    so without calling the provider and without touching the store while no
    more than 15 minutes have passed, and with exactly one [fetchUsers] call
    journalled afterwards. *)
Theorem getUsersPromise_after_fetch now later fetched st :
  fetched ≠ [] →
  let st1 := exec (fetchUsers_then now fetched) st in
  getUsersPromise later st1
  = (if decide (later - now ≤ 15 * 60 * 1000) then st1
     else set_effects (effects st1 ++ [ProviderCall FetchUsers]) st1,
     Ok (Resolved (users st1))).
Proof.
  intros Hfetched st1.
  destruct (fetchUsers_then_presence now fetched st) as (_ & Hkeys & Hat & _).
  fold st1 in Hkeys, Hat. unfold getUsersPromise, isNotEmpty.
  rewrite Hkeys, Hat. unfold object_keys. rewrite length_map.
  destruct fetched as [|entry fetched]; [done|]. simpl.
  unfold FETCH_THRESHOLD.
  destruct (Z.ltb_spec (15 * 60 * 1000) (later - now)).
  - rewrite decide_False by lia. done.
  - rewrite decide_True by lia. done.
Qed.

End UserCache.


Lemma getUsersPromise_after_fetch_witness :
  [("U2", bobUnknown)] ≠ []
  ∧ outcome (getUsersPromise 1000)
      (exec (fetchUsers_then 0 [("U2", bobUnknown)]) scenarioStore)
    = Ok (Resolved [("U2", User.mk "U2" "bob" (Some false))]).
Proof.
  split; [discriminate|].
  unfold outcome.
  rewrite (getUsersPromise_after_fetch 0 1000 [("U2", bobUnknown)] scenarioStore);
    [reflexivity|discriminate].
Defined.



Section Completions.

Variable num_gt : string -> string -> bool.

Lemma fetchChannels_then_exec now fetched st :
  ∃ es,
    exec (fetchChannels_then num_gt now fetched) st
    = set_effects (effects st ++ es)
        (set_channelsFetchedAt (Some now) (set_channels (Some fetched) st)).
Proof.
  unfold exec, fetchChannels_then.
  erewrite exec_bind_ok by apply updateChannels_run.
  erewrite exec_bind_ok by reflexivity.
  assert (onlyEmits
            (bind (updateTreeViews num_gt)
               (fun _ =>
                  bind (modify (fun st' =>
                          set_effects
                            (effects st'
                             ++ map (fun channel =>
                                       ProviderCall (FetchChannelInfo channel))
                                    fetched) st'))
                       (fun _ => ret fetched)))) as Hrest.
  { apply onlyEmits_bind; [apply updateTreeViews_onlyEmits|intros _].
    apply onlyEmits_bind; [|intros _; apply onlyEmits_ret].
    intros st'. by eexists. }
  match goal with
  | |- ∃ es, fst (_ ?st2) = _ => destruct (Hrest st2) as [es' ->]
  end.
  eexists. unfold set_effects, set_channelsFetchedAt, set_channels. simpl.
  by rewrite <- app_assoc.
Qed.

(** X16: the callback of [fetchChannels] stores the fetched list, empty or
    not, and the current time, even when refreshing the tree views throws;
    afterwards [getChannelsPromise] resolves with that list, without
    calling the provider and without touching the store while no more than
    15 minutes have passed, and with exactly one [fetchChannels] call
    journalled afterwards. *)
Theorem getChannelsPromise_after_fetch now later fetched st :
  let st1 := exec (fetchChannels_then num_gt now fetched) st in
  channels st1 = Some fetched
  ∧ channelsFetchedAt st1 = Some now
  ∧ getChannelsPromise later st1
    = (if decide (later - now ≤ 15 * 60 * 1000) then st1
       else set_effects
              (effects st1 ++ [ProviderCall (FetchChannels (users st1))]) st1,
       Ok (Resolved fetched)).
Proof.
  intros st1.
  destruct (fetchChannels_then_exec now fetched st) as [es Hst1]. fold st1 in Hst1.
  rewrite Hst1. split; [done|]. split; [done|].
  unfold getChannelsPromise, fetchChannels, bind, emit, modify. simpl.
  unfold FETCH_THRESHOLD.
  destruct (Z.ltb_spec (15 * 60 * 1000) (later - now)).
  - rewrite decide_False by lia. done.
  - rewrite decide_True by lia. done.
Qed.



(** X19: the callback of [fetchThreadReplies] puts the message the provider
    returned in the place of the parent, in the channel that was current
    when the replies were asked for; what the store held for the parent is
    dropped, and a provider that returns no message removes the parent. *)
Theorem fetchThreadReplies_then_replaces currentChannelId parentTimestamp message st :
  storedMessage (property_key currentChannelId) parentTimestamp
    (exec (fetchThreadReplies_then num_gt currentChannelId parentTimestamp message) st)
  = match message with
    | Some fetched => Some (Some fetched)
    | None => None
    end.
Proof.
  unfold fetchThreadReplies_then.
  destruct (updateMessages_contents num_gt (property_key currentChannelId)
              {[ parentTimestamp := message ]} st) as [-> _].
  rewrite lookup_singleton_eq. by destruct message.
Qed.

End Completions.


(** ** Signing out and switching workspace *)

Lemma updateCurrentUser_run userInfo st :
  updateCurrentUser userInfo st
  = (let info :=
       match userInfo with
       | None => None
       | Some info =>
         Some (CurrentUser.with_currentTeamId
                 (if truthy_opt (CurrentUser.currentTeamId info)
                  then CurrentUser.currentTeamId info
                  else currentUserInfo st ≫= CurrentUser.currentTeamId) info)
       end in
     (set_effects
        (effects st ++ [GlobalStateUpdate stateKeys.USER_INFO (StoredUserInfo info)])
        (set_currentUserInfo info st), Ok tt)).
Proof.
  unfold updateCurrentUser, bind, modify, emit.
  destruct userInfo as [info|]; [|done]. simpl.
  by destruct (currentUserInfo st).
Qed.

(** X20: [updateCurrentWorkspace] records the id of the team as the current
    team, keeping the id and the provider of the current user, and persists
    the record; a team whose id is the empty string leaves the current team
    as it was. *)
Theorem updateCurrentWorkspace_effect team st :
  let st1 := exec (updateCurrentWorkspace team) st in
  ∃ currentUser,
    currentUserInfo st1 = Some currentUser
    ∧ CurrentUser.id currentUser = currentUserInfo st ≫= CurrentUser.id
    ∧ CurrentUser.provider currentUser = currentUserInfo st ≫= CurrentUser.provider
    ∧ CurrentUser.currentTeamId currentUser
      = (if decide (Team.id team = "")
         then currentUserInfo st ≫= CurrentUser.currentTeamId
         else Some (Team.id team))
    ∧ effects st1
      = effects st ++ [GlobalStateUpdate "userInfo" (StoredUserInfo (Some currentUser))].
Proof.
  intros st1. unfold st1, exec, updateCurrentWorkspace.
  rewrite updateCurrentUser_run. simpl. eexists. split; [done|].
  destruct (currentUserInfo st) as [currentUser|]; simpl; unfold truthy;
    destruct (String.eqb_spec (Team.id team) "") as [Hempty|Hteam]; simpl;
    by rewrite ?decide_True, ?decide_False by done.
Qed.

(** X21: [clearOldWorkspace] returns normally.  It empties the channel
    list, the user cache and the message store, forgets the selected
    channel, both fetch times and the token, and asks a bound provider to
    destroy itself; it persists the emptied channel id, channels and users,
    in this order, and keeps the current user and the preferences. *)
Theorem clearOldWorkspace_effect w :
  let w1 := fst (clearOldWorkspace w) in
  snd (clearOldWorkspace w) = Ok tt
  ∧ lastChannelId (store w1) = None
  ∧ channels (store w1) = Some []
  ∧ users (store w1) = []
  ∧ messages (store w1) = ∅
  ∧ usersFetchedAt (store w1) = None
  ∧ channelsFetchedAt (store w1) = None
  ∧ token w1 = None
  ∧ chatProvider w1 = S <$> chatProvider w
  ∧ currentUserInfo (store w1) = currentUserInfo (store w)
  ∧ currentUserPrefs (store w1) = currentUserPrefs (store w)
  ∧ effects (store w1)
    = effects (store w)
      ++ [GlobalStateUpdate "lastChannelId" (StoredChannelId None);
          GlobalStateUpdate "channels" (StoredChannels []);
          GlobalStateUpdate "users" (StoredUsers [])].
Proof.
  unfold clearOldWorkspace, updateLastChannelId, updateChannels, updateUsers,
    bind, modify, emit. simpl.
  repeat split; try done.
  by rewrite <- !app_assoc.
Qed.

(** X22: after [clearOldWorkspace], at any time, [getUsersPromise] hands
    back the promise of a provider fetch, while [getChannelsPromise]
    resolves at once with the empty list and journals one [fetchChannels]
    call in the background. *)
Theorem promises_after_clearOldWorkspace now w :
  let st1 := store (fst (clearOldWorkspace w)) in
  getUsersPromise now st1
  = (set_effects (effects st1 ++ [ProviderCall FetchUsers]) st1,
     Ok (Chained FetchUsers))
  ∧ getChannelsPromise now st1
    = (set_effects (effects st1 ++ [ProviderCall (FetchChannels [])]) st1,
       Ok (Resolved [])).
Proof.
  intros st1.
  destruct (clearOldWorkspace_effect w)
    as (_ & _ & Hchs & Husers & _ & Hua & Hca & _).
  fold st1 in Hchs, Husers, Hua, Hca.
  unfold getUsersPromise, getChannelsPromise, fetchUsers, fetchChannels, isNotEmpty.
  rewrite Hchs, Husers, Hca. done.
Qed.

Lemma clearAll_run w :
  clearAll w
  = clearOldWorkspace
      (mkWorkspace
         (set_effects
            (effects (store w)
             ++ [GlobalStateUpdate stateKeys.USER_INFO (StoredUserInfo None)])
            (set_currentUserInfo None (store w)))
         (token w) (chatProvider w)).
Proof. unfold clearAll. by rewrite updateCurrentUser_run. Qed.

(** X23: [clearAll] signs out and clears the workspace: nobody is
    authenticated afterwards, the cleared user is persisted first, and a
    user record that then arrives without a team gets none: the team
    recorded before the sign-out is forgotten. *)
Theorem clearAll_signs_out w info :
  let w1 := fst (clearAll w) in
  snd (clearAll w) = Ok tt
  ∧ currentUserInfo (store w1) = None
  ∧ isAuthenticated (store w1) = false
  ∧ channels (store w1) = Some [] ∧ users (store w1) = [] ∧ messages (store w1) = ∅
  ∧ (∃ es, effects (store w1)
           = effects (store w)
             ++ GlobalStateUpdate "userInfo" (StoredUserInfo None) :: es)
  ∧ (CurrentUser.currentTeamId info = None →
     currentUserInfo (exec (updateCurrentUser (Some info)) (store w1))
     = Some info).
Proof.
  intros w1. unfold w1. rewrite clearAll_run.
  set (w0 := mkWorkspace
               (set_effects
                  (effects (store w)
                   ++ [GlobalStateUpdate stateKeys.USER_INFO (StoredUserInfo None)])
                  (set_currentUserInfo None (store w)))
               (token w) (chatProvider w)).
  destruct (clearOldWorkspace_effect w0)
    as (Hok & _ & Hchs & Husers & Hmsgs & _ & _ & _ & _ & Hcu & _ & Heffects).
  split; [done|]. split; [by rewrite Hcu|].
  split; [unfold isAuthenticated; by rewrite Hcu|].
  split; [done|]. split; [done|]. split; [done|]. split.
  - eexists. rewrite Heffects. simpl. by rewrite <- app_assoc.
  - intros Hteam. rewrite updateCurrentUser_info, Hcu, Hteam. simpl.
    destruct info as [userId teamId provider]. simpl in Hteam. by subst.
Qed.

Lemma clearAll_signs_out_witness :
  CurrentUser.currentTeamId partialUser = None
  ∧ currentUserInfo
      (exec (updateCurrentUser (Some partialUser))
            (store (fst (clearAll (mkWorkspace teamStore None None)))))
    = Some partialUser.
Proof.
  split; [reflexivity|].
  destruct (clearAll_signs_out (mkWorkspace teamStore None None) partialUser)
    as (_ & _ & _ & _ & _ & _ & _ & Hforgotten).
  exact (Hforgotten eq_refl).
Defined.
